(** * ZIP code to state mapper: a shallow embedding of
      [src/vendor_intake/utils/zip_state_mapper.py] and its properties.

    Python [str] values are modelled as [string]; a character stands for the
    code point of the same number, so the model covers every [str] whose code
    points are below 256.  The character classes below are the ones CPython
    uses for such code points. *)

From Stdlib Require Import Ascii ZArith Lia Bool.
From Stdlib Require String.
From stdpp Require Import gmap strings list pretty.

Local Open Scope Z_scope.

(** ** Python strings *)

Module PyStr.

Definition ord (c : ascii) : N := N_of_ascii c.

Definition in_range (lo hi : N) (c : ascii) : bool :=
  ((lo <=? ord c) && (ord c <=? hi))%N.

(** [\d] of [re] on [str], and the digits [int] accepts. *)
Definition is_decimal (c : ascii) : bool := in_range 48 57 c.

(** [str.isspace] on one character; also [\s] of [re] and what
    [str.strip] removes. *)
Definition is_space (c : ascii) : bool :=
  in_range 9 13 c || in_range 28 32 c
  || (ord c =? 133)%N || (ord c =? 160)%N.

(** [str.isdigit] on one character: the decimal digits and the
    superscripts two, three and one. *)
Definition is_digit (c : ascii) : bool :=
  is_decimal c || (ord c =? 178)%N || (ord c =? 179)%N || (ord c =? 185)%N.

(** [str.isalpha] on one character. *)
Definition is_alpha (c : ascii) : bool :=
  in_range 65 90 c || in_range 97 122 c
  || (ord c =? 170)%N || (ord c =? 181)%N || (ord c =? 186)%N
  || in_range 192 214 c || in_range 216 246 c || in_range 248 255 c.

(** [str.isnumeric] on one character. *)
Definition is_numeric (c : ascii) : bool :=
  is_digit c || in_range 188 190 c.

(** [\w] of [re] on [str]: alphanumeric or the underscore. *)
Definition is_word (c : ascii) : bool :=
  is_alpha c || is_numeric c || (ord c =? 95)%N.

Definition hyphen : ascii := "-"%char.
Definition newline : ascii := "010"%char.

Definition head (s : string) : option ascii :=
  match s with
  | EmptyString => None
  | String c _ => Some c
  end.

Fixpoint last (s : string) : option ascii :=
  match s with
  | EmptyString => None
  | String c EmptyString => Some c
  | String _ s' => last s'
  end.

(** [s[:n]] *)
Fixpoint take (n : nat) (s : string) : string :=
  match n, s with
  | S n', String c s' => String c (take n' s')
  | _, _ => EmptyString
  end.

(** [s.split(sep)[0]]: the part of [s] before the first [sep]. *)
Fixpoint before_first (sep : ascii) (s : string) : string :=
  match s with
  | EmptyString => EmptyString
  | String c s' =>
      if decide (c = sep) then EmptyString
      else String c (before_first sep s')
  end.

Fixpoint contains (sep : ascii) (s : string) : bool :=
  match s with
  | EmptyString => false
  | String c s' => bool_decide (c = sep) || contains sep s'
  end.

Fixpoint all (p : ascii → bool) (s : string) : bool :=
  match s with
  | EmptyString => true
  | String c s' => p c && all p s'
  end.

(** Leading, then trailing, characters of a class removed. *)
Fixpoint lstrip_by (p : ascii → bool) (s : string) : string :=
  match s with
  | EmptyString => EmptyString
  | String c s' => if p c then lstrip_by p s' else s
  end.

Fixpoint rstrip_by (p : ascii → bool) (s : string) : string :=
  match s with
  | EmptyString => EmptyString
  | String c s' =>
      match rstrip_by p s' with
      | EmptyString => if p c then EmptyString else String c EmptyString
      | r => String c r
      end
  end.

(** [s.strip()] *)
Definition strip (s : string) : string :=
  rstrip_by is_space (lstrip_by is_space s).

(** The white space [int] skips around a literal: the C white space, and
    the white space above the ASCII range; the separators 28 to 31 are not
    skipped. *)
Definition is_int_space (c : ascii) : bool :=
  in_range 9 13 c || (ord c =? 32)%N || (ord c =? 133)%N || (ord c =? 160)%N.

(** Truth value of a [str]. *)
Definition truthy (s : string) : bool :=
  match s with
  | EmptyString => false
  | _ => true
  end.

(** [s.isdigit()]: non-empty and made of digit characters. *)
Definition isdigit (s : string) : bool := truthy s && all is_digit s.

(** [sep.join(l)] *)
Fixpoint join (sep : string) (l : list string) : string :=
  match l with
  | [] => ""
  | [x] => x
  | x :: l' => x +:+ sep +:+ join sep l'
  end.

Definition digit_val (c : ascii) : Z := Z.of_N (ord c) - 48.

(** The digits of an [int] literal: decimal digits, single underscores
    allowed between two digits. *)
Fixpoint int_digits (acc : Z) (after_digit : bool) (s : string) : option Z :=
  match s with
  | EmptyString => if after_digit then Some acc else None
  | String c s' =>
      if is_decimal c then int_digits (10 * acc + digit_val c) true s'
      else if bool_decide (c = "_"%char) && after_digit
              && from_option is_decimal false (head s')
      then int_digits acc false s'
      else None
  end.

(** [int(s)] in base ten; [None] stands for [ValueError]. *)
Definition int (s : string) : option Z :=
  match rstrip_by is_int_space (lstrip_by is_int_space s) with
  | String "+" r => int_digits 0 false r
  | String "-" r => Z.opp <$> int_digits 0 false r
  | t => int_digits 0 false t
  end.

(** [str(n)] of an [int]. *)
Definition str (n : Z) : string := pretty n.

End PyStr.

(** ** The regular expressions of the module *)

Module Re.
Import PyStr.

(** [\d{n}] at the front of [s]: what was matched and what is left. *)
Fixpoint digits (n : nat) (s : string) : option (string * string) :=
  match n with
  | O => Some (EmptyString, s)
  | S n' =>
      match s with
      | String c s' =>
          if is_decimal c
          then '(m, r) ← digits n' s'; Some (String c m, r)
          else None
      | EmptyString => None
      end
  end.

(** [$] without [re.MULTILINE]: at the end, or before a final newline. *)
Definition at_dollar (rest : string) : bool :=
  match rest with
  | EmptyString => true
  | String c EmptyString => bool_decide (c = newline)
  | _ => false
  end.

(** [(?:-\d{4})] at the front of [s]. *)
Definition plus4 (s : string) : option (string * string) :=
  match s with
  | String c s' => if decide (c = hyphen) then digits 4 s' else None
  | EmptyString => None
  end.

(** [re.match(r'^\d{5}(?:-\d{4})?$', s)] as a truth value.  The optional
    group is greedy: it is tried first, and dropped when the rest of the
    pattern fails after it. *)
Definition match_zip_pattern (s : string) : bool :=
  match digits 5 s with
  | None => false
  | Some (_, r1) =>
      match plus4 r1 with
      | Some (_, r2) => at_dollar r2 || at_dollar r1
      | None => at_dollar r1
      end
  end.

Definition is_word_opt (o : option ascii) : bool := from_option is_word false o.

(** [\b] between the character before and the character after. *)
Definition word_boundary (prev next : option ascii) : bool :=
  xorb (is_word_opt prev) (is_word_opt next).

(** One attempt of [\b\d{5}(?:-\d{4})?\b] at the front of [s], the
    character before it being [prev]: the text matched, if any. *)
Definition match_zip_word (prev : option ascii) (s : string) : option string :=
  if word_boundary prev (head s) then
    match digits 5 s with
    | None => None
    | Some (d5, r1) =>
        let short :=
          if word_boundary (last d5) (head r1) then Some d5 else None in
        match plus4 r1 with
        | Some (d4, r2) =>
            if word_boundary (last d4) (head r2)
            then Some (d5 +:+ String hyphen d4)
            else short
        | None => short
        end
    end
  else None.

(** The scan of [re.findall]: [skip] characters of the last match are
    still to be passed over; matches do not overlap. *)
Fixpoint findall_from (prev : option ascii) (skip : nat) (s : string)
  : list string :=
  match s with
  | EmptyString => []
  | String c s' =>
      match skip with
      | S k => findall_from (Some c) k s'
      | O =>
          match match_zip_word prev s with
          | Some m => m :: findall_from (Some c) (String.length m - 1) s'
          | None => findall_from (Some c) 0 s'
          end
      end
  end.

(** [re.findall(r'\b\d{5}(?:-\d{4})?\b', s)] *)
Definition findall_zip (s : string) : list string := findall_from None 0 s.

(** A character of the class [[,;\s\n]]. *)
Definition is_sep (c : ascii) : bool :=
  bool_decide (c = ","%char) || bool_decide (c = ";"%char)
  || is_space c || bool_decide (c = newline).

(** The scan of [re.split] on runs of separators; [in_run] says that the
    character before was a separator. *)
Fixpoint split_from (in_run : bool) (s : string) : list string :=
  match s with
  | EmptyString => [EmptyString]
  | String c s' =>
      if is_sep c then
        if in_run then split_from true s'
        else EmptyString :: split_from true s'
      else
        match split_from false s' with
        | t :: ts => String c t :: ts
        | [] => [String c EmptyString]
        end
  end.

(** [re.split(r'[,;\s\n]+', s)] *)
Definition split_seps (s : string) : list string := split_from false s.

End Re.

(** ** The mapper object, the world around it, and the monad of its methods *)

Record ZipCodeMapper := mkMapper {
  zip_to_state_map : gmap string string;
  zip_database_path : option string
}.

Inductive level := INFO | WARNING | ERROR.

(** What a method can touch: the object, the records sent to the module's
    logger, and the directories created on disk. *)
Record World := mkWorld {
  self : ZipCodeMapper;
  log : list (level * string);
  made_dirs : list string
}.

(** A method either returns a value or raises; the exception carries its
    message. *)
Inductive result (A : Type) :=
| Ok (a : A)
| Raised (e : string).
Arguments Ok {A} a.
Arguments Raised {A} e.

Definition M (A : Type) : Type := World → result A * World.

Definition ret {A} (a : A) : M A := λ w, (Ok a, w).

Definition bind {A B} (m : M A) (k : A → M B) : M B :=
  λ w, match m w with
       | (Ok a, w') => k a w'
       | (Raised e, w') => (Raised e, w')
       end.

Definition raise {A} (e : string) : M A := λ w, (Raised e, w).

(** [try: body except Exception as e: handler(e)] *)
Definition try_except {A} (body : M A) (handler : string → M A) : M A :=
  λ w, match body w with
       | (Ok a, w') => (Ok a, w')
       | (Raised e, w') => handler e w'
       end.

Declare Scope py_scope.
Delimit Scope py_scope with py.
Notation "'let*' x ':=' m 'in' k" := (bind m (λ x, k))
  (at level 10, x name, m at level 100, k at level 200) : py_scope.
Notation "m >> k" := (bind m (λ _, k))
  (at level 100, k at level 200, right associativity) : py_scope.
Local Open Scope py_scope.

Definition get_self : M ZipCodeMapper := λ w, (Ok (self w), w).

Definition set_self (me : ZipCodeMapper) : M unit :=
  λ w, (Ok tt, mkWorld me (log w) (made_dirs w)).

(** [self.zip_to_state_map[k] = v] *)
Definition store (k v : string) : M unit :=
  λ w, (Ok tt,
        mkWorld (mkMapper (<[k:=v]> (zip_to_state_map (self w)))
                          (zip_database_path (self w)))
                (log w) (made_dirs w)).

Definition logger (l : level) (msg : string) : M unit :=
  λ w, (Ok tt, mkWorld (self w) (log w ++ [(l, msg)]) (made_dirs w)).

(** [for x in xs: body(x)] *)
Fixpoint for_each {A} (xs : list A) (body : A → M unit) : M unit :=
  match xs with
  | [] => ret tt
  | x :: xs' => body x >> for_each xs' body
  end.

(** ** Validation and lookup *)

(** [_is_in_valid_range], lines 154-170. *)
Definition _is_in_valid_range (me : ZipCodeMapper) (zip_base : string) : bool :=
  match PyStr.int zip_base with
  | Some zip_num => (0 <? zip_num) && (zip_num <? 100000)
  | None => false
  end.

(** [validate_zip_code], lines 133-152. *)
Definition validate_zip_code (me : ZipCodeMapper) (zip_code : string) : bool :=
  if negb (Re.match_zip_pattern zip_code) then false
  else
    let base_zip := PyStr.take 5 zip_code in
    bool_decide (is_Some (zip_to_state_map me !! base_zip))
    || _is_in_valid_range me base_zip.

(** [get_state_for_zip], lines 172-185. *)
Definition get_state_for_zip (me : ZipCodeMapper) (zip_code : string)
  : option string :=
  let base_zip := PyStr.before_first PyStr.hyphen zip_code in
  zip_to_state_map me !! base_zip.

(** ** Grouping ZIP codes by state *)

(** The argument of [process_zip_codes]: a [str] or a list of [str]. *)
Inductive zip_input :=
| Text (s : string)
| Items (l : list string).

(** The grouping is a Python [dict], which keeps its keys in the order of
    their first insertion. *)
Definition groups := list (string * list string).

Fixpoint dict_get (k : string) (d : groups) : option (list string) :=
  match d with
  | [] => None
  | (k', v) :: d' => if decide (k' = k) then Some v else dict_get k d'
  end.

(** [d[k].append(x)] for a key that is present. *)
Fixpoint dict_append (k x : string) (d : groups) : groups :=
  match d with
  | [] => []
  | (k', v) :: d' =>
      if decide (k' = k) then (k', v ++ [x]) :: d'
      else (k', v) :: dict_append k x d'
  end.

(** [if k not in d: d[k] = []] *)
Definition dict_ensure (k : string) (d : groups) : groups :=
  match dict_get k d with
  | Some _ => d
  | None => d ++ [(k, [])]
  end.

(** Lines 197-209: the candidates taken from the argument. *)
Definition extract_zip_list (zip_codes : zip_input) : list string :=
  match zip_codes with
  | Text s =>
      match Re.findall_zip s with
      | [] =>
          let potential_zips := Re.split_seps s in
          PyStr.strip <$>
            filter (λ z, PyStr.truthy (PyStr.strip z)
                         && PyStr.isdigit (PyStr.strip z) = true)
                   potential_zips
      | zip_list => zip_list
      end
  | Items l => l
  end.

(** Lines 215-230: the loop over the candidates. *)
Fixpoint process_loop (zip_list : list string)
    (res : groups) (invalid_zips : list string)
  : M (groups * list string) :=
  match zip_list with
  | [] => ret (res, invalid_zips)
  | zip_code :: rest =>
      let* me := get_self in
      if negb (validate_zip_code me zip_code) then
        logger WARNING ("Invalid ZIP code format: " +:+ zip_code) >>
        process_loop rest res (invalid_zips ++ [zip_code])
      else
        let* me := get_self in
        match get_state_for_zip me zip_code with
        | Some (String _ _ as state) =>
            process_loop rest
              (dict_append state zip_code (dict_ensure state res))
              invalid_zips
        | _ =>
            logger WARNING
              ("Could not determine state for ZIP code: " +:+ zip_code) >>
            process_loop rest res (invalid_zips ++ [zip_code])
        end
  end.

(** [process_zip_codes], lines 187-235. *)
Definition process_zip_codes (zip_codes : zip_input) : M groups :=
  let zip_list := extract_zip_list zip_codes in
  let* out := process_loop zip_list [] [] in
  let res := out.1 in
  let invalid_zips := out.2 in
  (match invalid_zips with
   | [] => ret tt
   | _ => logger WARNING
            ("Unprocessed ZIP codes: " +:+ PyStr.join ", " invalid_zips)
   end) >>
  ret res.

(** ** State abbreviations to directory URLs *)

(** The table [state_names] of [states_to_urls], lines 248-300. *)
Definition state_names_items : list (string * string) :=
  [("AL", "alabama"); ("AK", "alaska"); ("AZ", "arizona"); ("AR", "arkansas");
   ("CA", "california"); ("CO", "colorado"); ("CT", "connecticut");
   ("DE", "delaware"); ("FL", "florida"); ("GA", "georgia"); ("HI", "hawaii");
   ("ID", "idaho"); ("IL", "illinois"); ("IN", "indiana"); ("IA", "iowa");
   ("KS", "kansas"); ("KY", "kentucky"); ("LA", "louisiana"); ("ME", "maine");
   ("MD", "maryland"); ("MA", "massachusetts"); ("MI", "michigan");
   ("MN", "minnesota"); ("MS", "mississippi"); ("MO", "missouri");
   ("MT", "montana"); ("NE", "nebraska"); ("NV", "nevada");
   ("NH", "new-hampshire"); ("NJ", "new-jersey"); ("NM", "new-mexico");
   ("NY", "new-york"); ("NC", "north-carolina"); ("ND", "north-dakota");
   ("OH", "ohio"); ("OK", "oklahoma"); ("OR", "oregon");
   ("PA", "pennsylvania"); ("RI", "rhode-island"); ("SC", "south-carolina");
   ("SD", "south-dakota"); ("TN", "tennessee"); ("TX", "texas");
   ("UT", "utah"); ("VT", "vermont"); ("VA", "virginia");
   ("WA", "washington"); ("WV", "west-virginia"); ("WI", "wisconsin");
   ("WY", "wyoming"); ("DC", "district-of-columbia")].

Definition state_names : gmap string string := list_to_map state_names_items.

Definition default_base_url : string := "https://potadvisor.com".

(** The f-string of line 308. *)
Definition state_url (base_url state_name : string) : string :=
  base_url +:+ "/states/" +:+ state_name +:+ "/" +:+ state_name
  +:+ "-dispensaries/".

(** Lines 302-312: the loop over the states, in the order the set yields
    them. *)
Fixpoint urls_loop (states : list string) (base_url : string)
    (urls : gmap string (string * string))
  : M (gmap string (string * string)) :=
  match states with
  | [] => ret urls
  | state :: rest =>
      match state_names !! state with
      | Some state_name =>
          let url := state_url base_url state_name in
          urls_loop rest base_url (<[state := (url, state_name)]> urls)
      | None =>
          logger WARNING ("No URL mapping available for state: " +:+ state) >>
          urls_loop rest base_url urls
      end
  end.

(** [states_to_urls], lines 237-314. *)
Definition states_to_urls (states : gset string) (base_url : string)
  : M (gmap string (string * string)) :=
  urls_loop (elements states) base_url ∅.

(** ** Loading the database *)

(** A row of [csv.DictReader]: header name to field.  A field the reader
    fills with [None] reads like an absent one. *)
Definition csv_row := gmap string string.

(** What reading a CSV file gives: the rows delivered, then, possibly, the
    exception that ends the reading ([open] failing delivers no row). *)
Record CsvFile := mkCsv {
  csv_rows : list csv_row;
  csv_error : option string
}.

Record FileSystem := mkFS {
  package_dir : string;
  fs_exists : string → bool;
  fs_read : string → CsvFile;
  fs_makedirs_error : option string
}.

(** [a or b] on values that are [None] or a [str]. *)
Definition py_or (a b : option string) : option string :=
  match a with
  | Some (String _ _) => a
  | _ => b
  end.

(** [package_dir / "data" / "zip_code_database.csv"] *)
Definition default_db_path (fs : FileSystem) : string :=
  package_dir fs +:+ "/data/zip_code_database.csv".

(** [os.path.dirname(default_db_path)] *)
Definition default_db_dir (fs : FileSystem) : string :=
  package_dir fs +:+ "/data".

(** [os.makedirs(d, exist_ok=True)] *)
Definition makedirs (fs : FileSystem) (d : string) : M unit :=
  match fs_makedirs_error fs with
  | Some e => raise e
  | None => λ w, (Ok tt, mkWorld (self w) (log w) (made_dirs w ++ [d]))
  end.

(** Lines 80-86: one row of the reader. *)
Definition load_row (row : csv_row) : M unit :=
  let zip_code :=
    py_or (py_or (row !! "zip_code") (row !! "zipcode")) (row !! "ZIP") in
  let state :=
    py_or (py_or (row !! "state") (row !! "STATE")) (row !! "state_abbr") in
  match zip_code, state with
  | Some (String _ _ as z), Some (String _ _ as st) => store z st
  | _, _ => ret tt
  end.

(** [_load_from_csv], lines 70-91. *)
Definition _load_from_csv (fs : FileSystem) (file_path : string) : M unit :=
  try_except
    (let csvfile := fs_read fs file_path in
     for_each (csv_rows csvfile) load_row >>
     (match csv_error csvfile with
      | Some e => raise e
      | None => ret tt
      end) >>
     let* me := get_self in
     logger INFO
       ("Loaded " +:+ PyStr.str (Z.of_nat (size (zip_to_state_map me)))
        +:+ " ZIP codes from " +:+ file_path))
    (λ e,
       logger ERROR ("Error loading CSV file " +:+ file_path +:+ ": " +:+ e) >>
       raise e).

(** The table [state_ranges] of [_create_initial_mapping], lines 99-107. *)
Definition state_ranges : list (string * (Z * Z)) :=
  [("AL", (35000, 36999)); ("AK", (99500, 99999)); ("AZ", (85000, 86999));
   ("AR", (71600, 72999)); ("WA", (98000, 99499))].

(** [range(start, stop)] *)
Definition py_range (start stop : Z) : list Z := seqZ start (stop - start).

(** [_create_initial_mapping], lines 93-114. *)
Definition _create_initial_mapping : M unit :=
  for_each state_ranges (λ item,
    let state := item.1 in
    let start := item.2.1 in
    let end_ := item.2.2 in
    for_each (py_range start (end_ + 1)) (λ zip_code,
      store (PyStr.str zip_code) state)) >>
  logger INFO "Created initial ZIP code mapping with basic ranges".

(** [_download_zip_database], lines 116-131. *)
Definition _download_zip_database (save_path : string) : M unit :=
  try_except
    (logger INFO "Attempting to download ZIP code database..." >>
     logger INFO "ZIP code database download functionality not implemented")
    (λ e, logger ERROR ("Failed to download ZIP code database: " +:+ e)).

(** [_load_zip_database], lines 35-68. *)
Definition _load_zip_database (fs : FileSystem) : M unit :=
  try_except
    (let* me := get_self in
     let custom :=
       match zip_database_path me with
       | Some (String _ _ as p) => if fs_exists fs p then Some p else None
       | _ => None
       end in
     match custom with
     | Some p => _load_from_csv fs p
     | None =>
         if fs_exists fs (default_db_path fs) then
           _load_from_csv fs (default_db_path fs)
         else
           _create_initial_mapping >>
           makedirs fs (default_db_dir fs) >>
           _download_zip_database (default_db_path fs)
     end)
    (λ e,
       logger ERROR ("Error loading ZIP code database: " +:+ e) >>
       _create_initial_mapping).

(** [__init__], lines 23-33. *)
Definition __init__ (fs : FileSystem) (zip_database_path : option string)
  : M unit :=
  set_self (mkMapper ∅ zip_database_path) >>
  _load_zip_database fs.

(** ** Notions used to state the properties *)

(** Five decimal digits. *)
Definition zip5 (m : string) : Prop :=
  String.length m = 5%nat ∧ PyStr.all PyStr.is_decimal m = true.

(** Four decimal digits. *)
Definition plus4_digits (m : string) : Prop :=
  String.length m = 4%nat ∧ PyStr.all PyStr.is_decimal m = true.

(** Five digits, a hyphen, four digits. *)
Definition zip9 (m : string) : Prop :=
  ∃ a b, m = a +:+ String PyStr.hyphen b ∧ zip5 a ∧ plus4_digits b.

(** The format of a ZIP code: [5 digits] or [5 digits - 4 digits]. *)
Definition zip_format (m : string) : Prop := zip5 m ∨ zip9 m.

(** The numeric value of a string of decimal digits, most significant
    digit first. *)
Fixpoint decimal_value (acc : Z) (s : string) : Z :=
  match s with
  | EmptyString => acc
  | String c s' => decimal_value (10 * acc + PyStr.digit_val c) s'
  end.

(** [m] stands at the front of [s] as a whole word in ZIP format, the
    character before [s] being [prev]. *)
Definition whole_word_at (prev : option ascii) (s m : string) : Prop :=
  ∃ r, s = m +:+ r ∧ zip_format m
       ∧ Re.word_boundary prev (PyStr.head m) = true
       ∧ Re.word_boundary (PyStr.last m) (PyStr.head r) = true.

(** The matches a left-to-right scan reports: at each position the longest
    whole-word ZIP there, if there is one, and the scan resumes after it. *)
Inductive scan : option ascii → string → list string → Prop :=
| scan_end prev : scan prev EmptyString []
| scan_skip prev c s ms :
    (∀ m, ¬ whole_word_at prev (String c s) m) →
    scan (Some c) s ms →
    scan prev (String c s) ms
| scan_match prev m r ms :
    whole_word_at prev (m +:+ r) m →
    (∀ m', whole_word_at prev (m +:+ r) m' →
           (String.length m' ≤ String.length m)%nat) →
    scan (PyStr.last m) r ms →
    scan prev (m +:+ r) (m :: ms).

(** A run of separators: non-empty, only commas, semicolons and white
    space. *)
Definition sep_run (s : string) : Prop :=
  s ≠ EmptyString ∧ PyStr.all Re.is_sep s = true.

Definition sep_free (s : string) : Prop :=
  PyStr.all (λ c, negb (Re.is_sep c)) s = true.

(** The tokens between the maximal runs of separators of a text. *)
Inductive tokens : string → list string → Prop :=
| tokens_last t : sep_free t → tokens t [t]
| tokens_more t sep s ts :
    sep_free t → sep_run sep →
    from_option (λ c, negb (Re.is_sep c)) true (PyStr.head s) = true →
    tokens s ts →
    tokens (t +:+ sep +:+ s) (t :: ts).

(** The state a candidate is filed under, if it is: it validates and a
    state, not the empty string, is found for it. *)
Definition resolve (me : ZipCodeMapper) (z : string) : option string :=
  if validate_zip_code me z then
    match get_state_for_zip me z with
    | Some (String _ _ as state) => Some state
    | _ => None
    end
  else None.

(** The grouping after one more candidate. *)
Definition group_step (me : ZipCodeMapper) (res : groups) (z : string)
  : groups :=
  match resolve me z with
  | Some state => dict_append state z (dict_ensure state res)
  | None => res
  end.

(** The warning a candidate that is not filed leaves in the log. *)
Definition rejection (me : ZipCodeMapper) (z : string)
  : list (level * string) :=
  if validate_zip_code me z then
    match resolve me z with
    | Some _ => []
    | None => [(WARNING, "Could not determine state for ZIP code: " +:+ z)]
    end
  else [(WARNING, "Invalid ZIP code format: " +:+ z)].

Definition rejected (me : ZipCodeMapper) (zs : list string) : list string :=
  filter (λ z, resolve me z = None) zs.

(** The summary line of lines 232-233. *)
Definition summary (invalid_zips : list string) : list (level * string) :=
  match invalid_zips with
  | [] => []
  | _ => [(WARNING, "Unprocessed ZIP codes: " +:+ PyStr.join ", " invalid_zips)]
  end.

(** The grouping of the candidates of an argument, and what the call adds
    to the log. *)
Definition grouping (me : ZipCodeMapper) (zip_codes : zip_input) : groups :=
  foldl (group_step me) [] (extract_zip_list zip_codes).

Definition process_log (me : ZipCodeMapper) (zip_codes : zip_input)
  : list (level * string) :=
  (z ← extract_zip_list zip_codes; rejection me z)
  ++ summary (rejected me (extract_zip_list zip_codes)).

(** The world after a call that only logs. *)
Definition logged (w : World) (records : list (level * string)) : World :=
  mkWorld (self w) (log w ++ records) (made_dirs w).

(** Two values of a grouping under one key, joined. *)
Definition extend (o : option (list string)) (l : list string)
  : option (list string) :=
  match o, l with
  | None, [] => None
  | _, _ => Some (default [] o ++ l)
  end.

(** The distinct elements of a list, in the order of their first
    occurrence. *)
Definition first_occurrences (l : list string) : list string :=
  foldl (λ acc x, if decide (x ∈ acc) then acc else acc ++ [x]) [] l.

(** The candidates of a list that are filed under a state, in order. *)
Definition filed_under (me : ZipCodeMapper) (state : string)
    (zs : list string) : list string :=
  filter (λ z, resolve me z = Some state) zs.

(** The URL entry of a state code, when the code is known. *)
Definition url_entry (base_url code : string) : option (string * string) :=
  state_name ← state_names !! code;
  Some (state_url base_url state_name, state_name).

(** A lowercase, hyphenated name. *)
Definition is_canonical_name (s : string) : bool :=
  PyStr.truthy s
  && PyStr.all (λ c, PyStr.in_range 97 122 c || bool_decide (c = PyStr.hyphen)) s.

(** The entry a CSV row contributes, if any. *)
Definition row_entry (row : csv_row) : option (string * string) :=
  let zip_code :=
    py_or (py_or (row !! "zip_code") (row !! "zipcode")) (row !! "ZIP") in
  let state :=
    py_or (py_or (row !! "state") (row !! "STATE")) (row !! "state_abbr") in
  match zip_code, state with
  | Some (String _ _ as z), Some (String _ _ as st) => Some (z, st)
  | _, _ => None
  end.

(** Entries stored one after the other, later ones overwriting. *)
Definition fill (entries : list (string * string)) (m : gmap string string)
  : gmap string string :=
  foldl (λ acc e, <[e.1 := e.2]> acc) m entries.

(** The last value an entry list gives a key. *)
Definition last_value (k : string) (entries : list (string * string))
  : option string :=
  foldl (λ acc e, if decide (e.1 = k) then Some e.2 else acc) None entries.

(** The entries of the range table, in the order they are stored. *)
Definition initial_entries : list (string * string) :=
  item ← state_ranges;
  (λ zip_code : Z, (PyStr.str zip_code, item.1))
    <$> py_range item.2.1 (item.2.2 + 1).

(** The database made of the range table alone. *)
Definition initial_table : gmap string string := fill initial_entries ∅.

(** The database of a world, and a world with another database. *)
Definition db_of (w : World) : gmap string string :=
  zip_to_state_map (self w).

Definition with_db (w : World) (m : gmap string string) : World :=
  mkWorld (mkMapper m (zip_database_path (self w))) (log w) (made_dirs w).

(** The entries the rows of a file contribute, stored in an empty map. *)
Definition rows_table (fs : FileSystem) (p : string) : gmap string string :=
  fill (omap row_entry (csv_rows (fs_read fs p))) ∅.

(** The file the loader reads: the explicit path when given and existing,
    else the bundled file when present, else none. *)
Definition selected_source (fs : FileSystem) (path : option string)
  : option string :=
  match path with
  | Some (String _ _ as p) =>
      if fs_exists fs p then Some p
      else if fs_exists fs (default_db_path fs) then Some (default_db_path fs)
      else None
  | _ =>
      if fs_exists fs (default_db_path fs) then Some (default_db_path fs)
      else None
  end.



(** The database the loader leaves: the rows of the selected file; the
    range table laid over them when reading that file fails; the range
    table alone when no file is selected. *)
Definition loaded_table (fs : FileSystem) (path : option string)
  : gmap string string :=
  match selected_source fs path with
  | Some p =>
      match csv_error (fs_read fs p) with
      | None => rows_table fs p
      | Some _ => fill initial_entries (rows_table fs p)
      end
  | None => initial_table
  end.

(** The entries of the rows the loader reads: those of the selected file,
    none when no file is selected. *)
Definition source_entries (fs : FileSystem) (path : option string)
  : list (string * string) :=
  match selected_source fs path with
  | Some p => omap row_entry (csv_rows (fs_read fs p))
  | None => []
  end.

(** The URL table after the loop over some states. *)
Definition urls_of (base_url : string) (states : list string)
    (urls : gmap string (string * string)) : gmap string (string * string) :=
  foldl (λ acc state,
           match url_entry base_url state with
           | Some e => <[state := e]> acc
           | None => acc
           end) urls states.

(** The warning an unknown state code leaves in the log. *)
Definition unknown_state (state : string) : list (level * string) :=
  match state_names !! state with
  | Some _ => []
  | None => [(WARNING, "No URL mapping available for state: " +:+ state)]
  end.

(** A ZIP base: five decimal digits. *)
Definition is_zip_base (k : string) : bool :=
  (String.length k =? 5)%nat && PyStr.all PyStr.is_decimal k.

(** A state abbreviation: two uppercase letters. *)
Definition is_state_abbr (v : string) : bool :=
  (String.length v =? 2)%nat && PyStr.all (PyStr.in_range 65 90) v.

(** Every key a ZIP base, every value a state abbreviation. *)
Definition well_formed_db (db : gmap string string) : Prop :=
  ∀ k v, db !! k = Some v → is_zip_base k = true ∧ is_state_abbr v = true.

(** Every row the loader reads names a ZIP base and a state
    abbreviation. *)
Definition rows_well_formed (fs : FileSystem) (path : option string) : Prop :=
  ∀ k v, (k, v) ∈ source_entries fs path →
         is_zip_base k = true ∧ is_state_abbr v = true.

(** The database of a mapper built by [__init__] from an empty world. *)
Definition built_db (fs : FileSystem) (path : option string)
  : gmap string string :=
  zip_to_state_map
    (self (__init__ fs path (mkWorld (mkMapper ∅ None) [] [])).2).

(** ** Sample worlds *)

(** An explicit file that exists and cannot be read, beside a bundled file
    with one row. *)
Definition fs_unreadable_explicit : FileSystem :=
  mkFS "/pkg"
    (λ p, bool_decide (p = "zips.csv")
          || bool_decide (p = "/pkg/data/zip_code_database.csv"))
    (λ p, if decide (p = "zips.csv")
          then mkCsv [] (Some "[Errno 13] Permission denied: 'zips.csv'")
          else mkCsv [{["zip_code" := "10001"; "state" := "NY"]}] None)
    None.

(** An explicit file whose only row is not a ZIP code and a state
    abbreviation. *)
Definition fs_free_text_rows : FileSystem :=
  mkFS "/pkg"
    (λ p, bool_decide (p = "zips.csv"))
    (λ _, mkCsv [{["zip_code" := "abc"; "state" := "Alaska"]}] None)
    None.

(** No database file anywhere. *)
Definition fs_no_files : FileSystem :=
  mkFS "/pkg" (λ _, false) (λ _, mkCsv [] (Some "No such file")) None.

(** A mapper that knows one ZIP code. *)
Definition anchorage : ZipCodeMapper :=
  mkMapper {["99501" := "AK"]} None.

(** ** The crawler of [potadvisor_crawler.py] *)

Module PyPath.
Import PyStr.

(** [s.startswith(prefix)] *)
Fixpoint startswith (prefix s : string) : bool :=
  match prefix, s with
  | EmptyString, _ => true
  | String p prefix', String c s' => bool_decide (p = c) && startswith prefix' s'
  | String _ _, EmptyString => false
  end.



(** [os.path.join(a, b)] of [posixpath]. *)
Definition join (a b : string) : string :=
  if startswith "/" b then b
  else
    match a with
    | EmptyString => b
    | _ => if bool_decide (last a = Some "/"%char) then a +:+ b
           else a +:+ "/" +:+ b
    end.

End PyPath.

(** The scan of [re.search] for [\b(\d{5}(?:-\d{4})?)\b]: the match at the
    first position that has one. *)
Fixpoint search_zip_from (prev : option ascii) (s : string) : option string :=
  match Re.match_zip_word prev s with
  | Some m => Some m
  | None =>
      match s with
      | EmptyString => None
      | String c s' => search_zip_from (Some c) s'
      end
  end.

(** [extract_zip_from_address], lines 121-138. *)
Definition extract_zip_from_address (address : string) : option string :=
  match search_zip_from None address with
  | Some zip_match => Some zip_match
  | None => None
  end.

(** A record of extracted content: field name to text, what the extraction
    of text and attribute fields gives. *)
Definition record := gmap string string.

(** What a request for a page comes to: [arun] raises; the result reports a
    failure; its content is not JSON, and [json.loads] raises with a
    message; its content is a list of records. *)
Inductive page :=
| Raises (e : string)
| Failed (error : string)
| BadJson (content e : string)
| Records (content : list record).

(** The outside of the crawler: whether the browser starts and closes, what
    the n-th call to the outside gives for a URL, whether the n-th call may
    open a file for writing.  [title] stands for [str.title], used in the
    messages of the log only; its results leave the code points below 256
    (the capital of the letter at 255 is at 376). *)
Record Browser := mkBrowser {
  start_error : option string;
  close_error : option string;
  arun : nat → string → page;
  open_error : nat → string → option string;
  title : string → string
}.

(** What a crawl touches: the count of the calls made to the outside, the
    records sent to the logger, the files written. *)
Record CrawlWorld := mkCrawl {
  calls : nat;
  crawl_log : list (level * string);
  files : gmap string (list record)
}.

Definition crawl_logger (l : level) (msg : string) (cw : CrawlWorld)
  : CrawlWorld :=
  mkCrawl (calls cw) (crawl_log cw ++ [(l, msg)]) (files cw).

Definition called (cw : CrawlWorld) : CrawlWorld :=
  mkCrawl (S (calls cw)) (crawl_log cw) (files cw).

(** [listing.get('name')] inside an f-string. *)
Definition name_of (listing : record) : string :=
  from_option id "None" (listing !! "name").

(** Lines 193-202: the listings kept, each with the ZIP code of its
    address when it has one. *)
Fixpoint filter_loop (filter_zip_codes : gset string) (listings : list record)
  : list record :=
  match listings with
  | [] => []
  | listing :: rest =>
      let address := default "" (listing !! "address") in
      let zip_code := extract_zip_from_address address in
      let listing :=
        match zip_code with
        | Some (String _ _ as z) => <["zip_code" := z]> listing
        | _ => listing
        end in
      if bool_decide (filter_zip_codes = ∅)
         || match zip_code with
            | Some (String _ _ as z) => bool_decide (z ∈ filter_zip_codes)
            | _ => false
            end
      then listing :: filter_loop filter_zip_codes rest
      else filter_loop filter_zip_codes rest
  end.

(** Lines 213-246: the detail page of each listing kept. *)
Fixpoint detail_loop (browser : Browser) (filtered_listings : list record)
    (dispensaries : list record) (cw : CrawlWorld)
  : list record * CrawlWorld :=
  match filtered_listings with
  | [] => (dispensaries, cw)
  | listing :: rest =>
      match listing !! "url" with
      | Some (String _ _ as detail_url) =>
          let detail_url :=
            if PyPath.startswith "http" detail_url then detail_url
            else "https://potadvisor.com" +:+ detail_url in
          let cw :=
            crawl_logger INFO
              ("Crawling details for: " +:+ name_of listing +:+ " - "
               +:+ detail_url) cw in
          match arun browser (calls cw) detail_url with
          | Records detail_data =>
              let merged_data :=
                match detail_data with
                | d :: _ => d ∪ listing
                | [] => listing
                end in
              detail_loop browser rest (dispensaries ++ [merged_data])
                (called cw)
          | Failed error =>
              detail_loop browser rest (dispensaries ++ [listing])
                (crawl_logger WARNING
                   ("Failed to get details for " +:+ name_of listing +:+ ": "
                    +:+ error) (called cw))
          | BadJson _ e | Raises e =>
              detail_loop browser rest (dispensaries ++ [listing])
                (crawl_logger ERROR
                   ("Error crawling details for " +:+ name_of listing +:+ ": "
                    +:+ e) (called cw))
          end
      | _ =>
          detail_loop browser rest (dispensaries ++ [listing])
            (crawl_logger WARNING
               ("No URL for dispensary: " +:+ name_of listing) cw)
      end
  end.

(** Lines 176-250: the body of the [async with] block; beside its result,
    the exception that leaves it, if one does. *)
Definition crawl_body (browser : Browser) (state_name url : string)
    (filter_zip_codes : gset string) (cw : CrawlWorld)
  : list record * CrawlWorld * option string :=
  let cw := crawl_logger INFO ("Crawling state listing: " +:+ url) cw in
  match arun browser (calls cw) url with
  | Raises e => ([], called cw, Some e)
  | Failed error =>
      ([], crawl_logger ERROR ("Failed to crawl state listing: " +:+ error)
             (called cw), None)
  | BadJson content _ =>
      ([], crawl_logger ERROR
             ("Failed to parse JSON from extracted content. Content: "
              +:+ PyStr.take 100 content +:+ "...") (called cw), None)
  | Records listings =>
      let cw :=
        crawl_logger INFO
          ("Found " +:+ PyStr.str (Z.of_nat (length listings))
           +:+ " dispensaries in " +:+ title browser state_name) (called cw) in
      let filtered_listings := filter_loop filter_zip_codes listings in
      let cw :=
        crawl_logger INFO
          ("Filtered to "
           +:+ PyStr.str (Z.of_nat (length filtered_listings))
           +:+ " dispensaries in specified ZIP codes") cw in
      let out := detail_loop browser filtered_listings [] cw in
      (out.1, out.2, None)
  end.

(** [crawl_state], lines 140-254. *)
Definition crawl_state (browser : Browser)
    (state_abbr state_name url : string) (filter_zip_codes : gset string)
    (cw : CrawlWorld) : list record * CrawlWorld :=
  let cw :=
    crawl_logger INFO
      ("Starting crawl for " +:+ title browser state_name +:+ " ("
       +:+ state_abbr +:+ ")") cw in
  match start_error browser with
  | Some e => ([], crawl_logger ERROR ("Error during crawling: " +:+ e) cw)
  | None =>
      let out := crawl_body browser state_name url filter_zip_codes cw in
      let dispensaries := out.1.1 in
      let cw := out.1.2 in
      match close_error browser, out.2 with
      | Some e, _ | None, Some e =>
          (dispensaries,
           crawl_logger ERROR ("Error during crawling: " +:+ e) cw)
      | None, None => (dispensaries, cw)
      end
  end.




(** ** Notions for the further properties *)

(** The first of some cells that holds a non-empty text. *)
Fixpoint first_nonempty (cells : list (option string)) : option string :=
  match cells with
  | [] => None
  | Some (String c s) :: _ => Some (String c s)
  | _ :: cells' => first_nonempty cells'
  end.

(** A whole-word ZIP stands in a text at some place. *)
Definition zip_stands_at (s l m r : string) : Prop :=
  s = l +:+ m +:+ r ∧ whole_word_at (PyStr.last l) (m +:+ r) m.

(** A listing with the ZIP code of its address, when it has one. *)
Definition tagged (listing : record) : record :=
  match extract_zip_from_address (default "" (listing !! "address")) with
  | Some z => <["zip_code" := z]> listing
  | None => listing
  end.

(** The test of the filter: no filter, or the ZIP code of the address is
    one of the filter. *)
Definition passes (filter_zip_codes : gset string) (listing : record) : bool :=
  bool_decide (filter_zip_codes = ∅)
  || match extract_zip_from_address (default "" (listing !! "address")) with
     | Some z => bool_decide (z ∈ filter_zip_codes)
     | None => false
     end.

(** A dispensary record made from a listing: the listing alone, or the
    first record of a detail page laid over it. *)
Definition laid_over (browser : Browser) (listing dispensary : record)
  : Prop :=
  dispensary = listing
  ∨ ∃ n url d ds,
      arun browser n url = Records (d :: ds) ∧ dispensary = d ∪ listing.

(** A listing with a URL that is not the empty text. *)
Definition has_url (listing : record) : bool :=
  match listing !! "url" with
  | Some (String _ _) => true
  | _ => false
  end.

(** A browser whose first page lists two dispensaries and whose other
    requests fail. *)
Definition northern_lights : record :=
  {["name" := "Northern Lights"; "address" := "1 Main St, Anchorage, AK 99501";
    "url" := "/directory/northern-lights"]}.

Definition two_listings : list record :=
  [northern_lights;
   {["name" := "Far Away"; "address" := "9 Pine Rd, Nome, AK 99762"]}].

Definition one_page : Browser :=
  mkBrowser None None
    (λ n _, match n with O => Records two_listings | _ => Failed "HTTP 500" end)
    (λ _ _, None) id.

(** * Properties *)

(** ** Strings *)

#[local] Arguments String.append !_ _ / : simpl nomatch.

Section Strings.
Import PyStr.

Lemma append_nil_r (s : string) : s +:+ "" = s.
Proof. induction s as [|c s IH]; simpl; [done|]. by rewrite IH. Qed.

Lemma append_assoc (a b c : string) : (a +:+ b) +:+ c = a +:+ b +:+ c.
Proof. induction a as [|x a IH]; simpl; [done|]. by rewrite IH. Qed.

Lemma length_append (a b : string) :
  String.length (a +:+ b) = (String.length a + String.length b)%nat.
Proof. induction a as [|x a IH]; simpl; [done|]. by rewrite IH. Qed.

Lemma take_app_length (a b : string) : take (String.length a) (a +:+ b) = a.
Proof. induction a as [|x a IH]; simpl; [by destruct b|]. by rewrite IH. Qed.

Lemma take_all (n : nat) (a : string) :
  (String.length a ≤ n)%nat → take n a = a.
Proof.
  revert n. induction a as [|x a IH]; intros [|n] H; simpl in *; try done.
  - lia.
  - rewrite IH; [done|lia].
Qed.

Lemma before_first_app_sep sep (b x : string) :
  before_first sep (b +:+ String sep x) = before_first sep b.
Proof.
  induction b as [|c b IH]; simpl.
  - by rewrite decide_True.
  - destruct (decide (c = sep)); [done|]. by rewrite IH.
Qed.

Lemma before_first_sep_free sep (b : string) :
  contains sep b = false → before_first sep b = b.
Proof.
  induction b as [|c b IH]; simpl; [done|].
  intros [Hc Hb]%orb_false_elim.
  apply bool_decide_eq_false in Hc.
  rewrite decide_False by done. by rewrite IH.
Qed.

(** [split(sep)[0]] is the part before the first separator. *)
Lemma before_first_split sep (s : string) :
  ∃ rest, s = before_first sep s +:+ rest
          ∧ contains sep (before_first sep s) = false
          ∧ (rest = "" ∨ head rest = Some sep).
Proof.
  induction s as [|c s (rest & Hs & Hc & Hr)]; simpl.
  - exists "". auto.
  - destruct (decide (c = sep)) as [->|Hne].
    + exists (String sep s). simpl. auto.
    + exists rest. simpl. rewrite <- Hs. split; [done|]. split; [|done].
      rewrite Hc. by rewrite bool_decide_eq_false_2.
Qed.

Lemma decimal_not_hyphen c : is_decimal c = true → c ≠ hyphen.
Proof. intros H ->. done. Qed.

Lemma all_decimal_no_hyphen (s : string) :
  all is_decimal s = true → contains hyphen s = false.
Proof.
  induction s as [|c s IH]; simpl; [done|].
  intros [Hc Hs]%andb_true_iff.
  rewrite IH by done.
  by rewrite bool_decide_eq_false_2 by by apply decimal_not_hyphen.
Qed.

Lemma decimal_not_space c : is_decimal c = true → is_int_space c = false.
Proof.
  unfold is_decimal, is_int_space, in_range. intros H.
  apply andb_true_iff in H as [H1%N.leb_le H2%N.leb_le].
  repeat (apply orb_false_intro); try apply andb_false_iff;
    rewrite ?N.leb_gt, ?N.eqb_neq; lia.
Qed.

End Strings.

(** ** The ZIP pattern *)

Section Pattern.
Import PyStr Re.

Lemma digits_inv n (s m r : string) :
  digits n s = Some (m, r) →
  s = m +:+ r ∧ String.length m = n ∧ all is_decimal m = true.
Proof.
  revert s m r. induction n as [|n IH]; intros s m r; simpl.
  - intros [= <- <-]. done.
  - destruct s as [|c s]; [done|].
    destruct (is_decimal c) eqn:Hc; [|done].
    destruct (digits n s) as [[m' r']|] eqn:Hd; [|done].
    intros [= <- <-]. destruct (IH _ _ _ Hd) as (-> & <- & Hm).
    simpl. by rewrite Hc, Hm.
Qed.

Lemma digits_intro (m r : string) :
  all is_decimal m = true → digits (String.length m) (m +:+ r) = Some (m, r).
Proof.
  induction m as [|c m IH]; simpl; [done|].
  intros [-> Hm]%andb_true_iff. by rewrite IH.
Qed.

Lemma at_dollar_inv (r : string) :
  at_dollar r = true ↔ r = "" ∨ r = String newline "".
Proof.
  destruct r as [|c [|d r]]; simpl.
  - split; auto.
  - rewrite bool_decide_eq_true. split.
    + intros ->. auto.
    + intros [|[= ->]]; done.
  - split; [done|]. intros [|]; done.
Qed.

Lemma plus4_inv (s m r : string) :
  plus4 s = Some (m, r) →
  s = String hyphen (m +:+ r) ∧ plus4_digits m.
Proof.
  destruct s as [|c s]; unfold plus4; [done|].
  destruct (decide (c = hyphen)) as [->|]; [|done].
  intros (-> & ? & ?)%digits_inv. done.
Qed.

Lemma plus4_intro (m r : string) :
  plus4_digits m → plus4 (String hyphen (m +:+ r)) = Some (m, r).
Proof.
  intros [Hl Hm]. unfold plus4. rewrite decide_True by done.
  rewrite <- Hl. by apply digits_intro.
Qed.

(** What the anchored pattern accepts: a ZIP code, or a ZIP code followed
    by one newline. *)
Lemma match_zip_pattern_spec (s : string) :
  match_zip_pattern s = true ↔
  ∃ t, (s = t ∨ s = t +:+ String newline "") ∧ zip_format t.
Proof.
  unfold match_zip_pattern. split.
  - destruct (digits 5 s) as [[d5 r1]|] eqn:Hd; [|done].
    apply digits_inv in Hd as (-> & Hl & Hm).
    assert (zip5 d5) as Hz5 by done.
    assert (at_dollar r1 = true →
            ∃ t, (d5 +:+ r1 = t ∨ d5 +:+ r1 = t +:+ String newline "")
                 ∧ zip_format t) as Hshort.
    { intros [->| ->]%at_dollar_inv; exists d5;
        rewrite ?append_nil_r; split; auto; by left. }
    destruct (plus4 r1) as [[d4 r2]|] eqn:Hp; [|done].
    apply plus4_inv in Hp as (-> & Hz4).
    intros [Hr2|Hr1]%orb_true_iff; [|by apply Hshort].
    exists (d5 +:+ String hyphen d4). split.
    + apply at_dollar_inv in Hr2 as [->| ->].
      * left. by rewrite append_nil_r.
      * right. by rewrite append_assoc.
    + right. by exists d5, d4.
  - intros (t & Hs & [[Hl Hm]|(a & b & -> & [Hla Hma] & Hb)]).
    + assert (∃ r, s = t +:+ r ∧ at_dollar r = true ∧ plus4 r = None)
        as (r & -> & Hr & Hp).
      { destruct Hs as [->| ->];
          [exists ""|exists (String newline "")];
          by rewrite ?append_nil_r. }
      rewrite <- Hl, digits_intro by done. by rewrite Hp.
    + assert (∃ r, s = a +:+ String hyphen (b +:+ r) ∧ at_dollar r = true)
        as (r & -> & Hr).
      { destruct Hs as [->| ->].
        - exists "". by rewrite append_nil_r.
        - exists (String newline ""). by rewrite append_assoc. }
      rewrite <- Hla, digits_intro by done.
      rewrite plus4_intro by done. by rewrite Hr.
Qed.

Lemma lstrip_decimal (m : string) :
  all is_decimal m = true → lstrip_by is_int_space m = m.
Proof.
  destruct m as [|c m]; simpl; [done|].
  intros [Hc _]%andb_true_iff. by rewrite decimal_not_space.
Qed.

Lemma rstrip_decimal (m : string) :
  all is_decimal m = true → rstrip_by is_int_space m = m.
Proof.
  induction m as [|c m IH]; simpl; [done|].
  intros [Hc Hm]%andb_true_iff. rewrite IH by done.
  destruct m; [|done]. by rewrite decimal_not_space.
Qed.

Lemma int_digits_decimal (m : string) acc b :
  all is_decimal m = true → (m ≠ "" ∨ b = true) →
  int_digits acc b m = Some (decimal_value acc m).
Proof.
  revert acc b. induction m as [|c m IH]; intros acc b Hm Hb; simpl in *.
  - destruct Hb as [?| ->]; done.
  - apply andb_true_iff in Hm as [Hc Hm]. rewrite Hc.
    apply IH; auto.
Qed.

(** [int] on a non-empty string of decimal digits. *)
Lemma int_decimal (m : string) :
  all is_decimal m = true → m ≠ "" →
  int m = Some (decimal_value 0 m).
Proof.
  intros Hm Hne. unfold int.
  rewrite lstrip_decimal, rstrip_decimal by done.
  destruct m as [|c m]; [done|].
  assert (is_decimal c = true) as Hc
    by (simpl in Hm; by apply andb_true_iff in Hm as [? _]).
  rewrite <- (int_digits_decimal (String c m) 0 false) by auto.
  destruct (decide (c = "+"%char)) as [->|]; [done|].
  destruct (decide (c = "-"%char)) as [->|]; [done|].
  destruct c as [[] [] [] [] [] [] [] []]; done.
Qed.

Lemma zip_format_take5 (t : string) :
  zip_format t → zip5 (take 5 t).
Proof.
  intros [Hz|(a & b & -> & Hz & _)].
  - rewrite take_all; [done|]. destruct Hz as [-> _]. done.
  - destruct Hz as [Hl Hm]. rewrite <- Hl at 1. by rewrite take_app_length.
Qed.

Lemma take5_newline (t : string) :
  zip_format t → take 5 (t +:+ String newline "") = take 5 t.
Proof.
  intros [[Hl Hm]|(a & b & -> & [Hl Hm] & _)].
  - rewrite <- Hl at 1. rewrite take_app_length.
    rewrite take_all; [done|lia].
  - rewrite append_assoc. rewrite <- Hl. by rewrite !take_app_length.
Qed.

Lemma take5_base (s t : string) :
  s = t ∨ s = t +:+ String newline "" → zip_format t →
  take 5 s = take 5 t.
Proof. intros [->| ->] Ht; [done|]. by apply take5_newline. Qed.

Lemma zip5_nonempty (m : string) : zip5 m → m ≠ "".
Proof. intros [Hl _] ->. done. Qed.

End Pattern.

(** ** validate_zip_code *)

Section Validate.
Import PyStr Re.
Variable me : ZipCodeMapper.

(** The range test on a ZIP base. *)
Lemma is_in_valid_range_base (b : string) :
  zip5 b →
  _is_in_valid_range me b = true ↔ 0 < decimal_value 0 b < 100000.
Proof.
  intros Hz. unfold _is_in_valid_range.
  rewrite int_decimal; [|apply Hz|by apply zip5_nonempty].
  rewrite andb_true_iff, Z.ltb_lt, Z.ltb_lt. done.
Qed.

(** [validate_zip_code] in full: the text is a ZIP code, possibly followed
    by one newline, and its base is a key of the database or a number
    strictly between 0 and 100000. *)
Lemma validate_zip_code_spec (s : string) :
  validate_zip_code me s = true ↔
  ∃ t, (s = t ∨ s = t +:+ String newline "") ∧ zip_format t
       ∧ (is_Some (zip_to_state_map me !! take 5 t)
          ∨ 0 < decimal_value 0 (take 5 t) < 100000).
Proof.
  unfold validate_zip_code.
  destruct (match_zip_pattern s) eqn:Hp; cbn [negb].
  - apply match_zip_pattern_spec in Hp as (t & Hs & Ht).
    rewrite (take5_base _ _ Hs Ht).
    rewrite orb_true_iff, bool_decide_eq_true.
    rewrite (is_in_valid_range_base _ (zip_format_take5 _ Ht)).
    split.
    + intros H. exists t. done.
    + intros (t' & Hs' & Ht' & H).
      by rewrite <- (take5_base _ _ Hs Ht), (take5_base _ _ Hs' Ht').
  - split; [done|]. intros (t & Hs & Ht & _).
    assert (match_zip_pattern s = true) as Hp'
      by (apply match_zip_pattern_spec; eauto).
    congruence.
Qed.

(** On a text in ZIP format, validation is the test of the base. *)
Lemma validate_zip_code_on_format (s : string) :
  zip_format s →
  validate_zip_code me s = true ↔
  is_Some (zip_to_state_map me !! take 5 s)
  ∨ 0 < decimal_value 0 (take 5 s) < 100000.
Proof.
  intros Hs. rewrite validate_zip_code_spec. split.
  - intros (t & Hst & Ht & H).
    by rewrite (take5_base _ _ Hst Ht).
  - intros H. exists s. auto.
Qed.

End Validate.

(** ** The scan of the first pass *)

Section Scan.
Import PyStr Re.

Lemma head_append (m r : string) : m ≠ "" → head (m +:+ r) = head m.
Proof. by destruct m. Qed.

Lemma last_app_cons (a : string) c (b : string) :
  last (a +:+ String c b) = last (String c b).
Proof.
  induction a as [|x a IH]; [done|].
  simpl. rewrite IH. by destruct a.
Qed.

Lemma last_cons c (m : string) :
  last (String c m) = Some (default c (last m)).
Proof.
  revert c. induction m as [|d m IH]; intros c; [done|].
  change (last (String c (String d m))) with (last (String d m)).
  by rewrite IH.
Qed.

Lemma prev_after_cons prev c (l : string) :
  from_option Some prev (last (String c l))
  = from_option Some (Some c) (last l).
Proof. rewrite last_cons. by destruct (last l). Qed.

Lemma prev_after_app prev (m l : string) :
  m ≠ "" →
  from_option Some prev (last (m +:+ l))
  = from_option Some (last m) (last l).
Proof.
  intros Hm. destruct l as [|x l].
  - rewrite append_nil_r. destruct m as [|c m]; [done|].
    by rewrite last_cons.
  - rewrite last_app_cons. by rewrite last_cons.
Qed.

Lemma zip_format_nonempty (m : string) : zip_format m → m ≠ "".
Proof.
  intros [[Hl _]|(a & b & -> & [Hl _] & _)] Hm.
  - by rewrite Hm in Hl.
  - by destruct a.
Qed.

Lemma zip_format_length (m : string) :
  zip_format m → String.length m = 5%nat ∨ String.length m = 10%nat.
Proof.
  intros [[Hl _]|(a & b & -> & [Hla _] & [Hlb _])]; [by left|right].
  rewrite length_append. simpl. lia.
Qed.

Lemma last_plus4 (a b : string) :
  plus4_digits b → last (a +:+ String hyphen b) = last b.
Proof.
  intros [Hl _]. rewrite last_app_cons. by destruct b.
Qed.

Lemma append_inv_length (a b c d : string) :
  a +:+ b = c +:+ d → String.length a = String.length c → a = c ∧ b = d.
Proof.
  revert c. induction a as [|x a IH]; intros [|y c]; simpl; try done.
  intros [= -> H] [= Hl]. destruct (IH _ H Hl) as [-> ->]. done.
Qed.

(** A whole-word ZIP at the front of [s], seen through the pieces the
    matcher computes. *)
Lemma whole_word_at_inv prev (s m : string) :
  whole_word_at prev s m →
  word_boundary prev (head s) = true ∧
  ∃ d5 r1, digits 5 s = Some (d5, r1) ∧
    ((m = d5 ∧ word_boundary (last d5) (head r1) = true)
     ∨ ∃ d4 r2, plus4 r1 = Some (d4, r2) ∧ m = d5 +:+ String hyphen d4
                ∧ word_boundary (last d4) (head r2) = true).
Proof.
  intros (r & -> & Hm & Hb1 & Hb2).
  rewrite head_append by by apply zip_format_nonempty. split; [done|].
  destruct Hm as [[Hl Hd]|(a & b & -> & [Hl Hd] & Hb)].
  - exists m, r. rewrite <- Hl, digits_intro by done. auto.
  - exists a, (String hyphen (b +:+ r)).
    rewrite append_assoc. rewrite <- Hl, digits_intro by done.
    split; [done|]. right. exists b, r.
    rewrite plus4_intro by done. rewrite last_plus4 in Hb2 by done. auto.
Qed.

Lemma match_zip_word_sound prev (s m : string) :
  match_zip_word prev s = Some m → whole_word_at prev s m.
Proof.
  unfold match_zip_word.
  destruct (word_boundary prev (head s)) eqn:Hb; [|done].
  destruct (digits 5 s) as [[d5 r1]|] eqn:Hd; [|done].
  apply digits_inv in Hd as (-> & Hl & Hdec).
  assert (d5 ≠ "") as Hne by (intros ->; done).
  rewrite head_append in Hb by done.
  assert (word_boundary (last d5) (head r1) = true →
          whole_word_at prev (d5 +:+ r1) d5) as Hshort.
  { intros Hb2. exists r1. repeat split; auto. by left. }
  destruct (plus4 r1) as [[d4 r2]|] eqn:Hp.
  - apply plus4_inv in Hp as (-> & Hd4).
    destruct (word_boundary (last d4) (head r2)) eqn:Hb3.
    + intros [= <-]. exists r2. rewrite append_assoc. split; [done|].
      split; [right; by exists d5, d4|].
      rewrite head_append by done. by rewrite last_plus4.
    + destruct (word_boundary (last d5) _) eqn:Hb2; [|done].
      intros [= <-]. by apply Hshort.
  - destruct (word_boundary (last d5) _) eqn:Hb2; [|done].
    intros [= <-]. by apply Hshort.
Qed.

Lemma match_zip_word_complete prev (s m : string) :
  whole_word_at prev s m →
  ∃ m', match_zip_word prev s = Some m'
        ∧ (String.length m ≤ String.length m')%nat.
Proof.
  intros Hw. pose proof Hw as (r & _ & Hfmt & _).
  apply whole_word_at_inv in Hw as (Hb & d5 & r1 & Hd & Hcase).
  unfold match_zip_word. rewrite Hb, Hd.
  pose proof (digits_inv _ _ _ _ Hd) as (_ & Hl5 & _).
  destruct Hcase as [[-> Hb2]|(d4 & r2 & Hp & -> & Hb3)].
  - rewrite Hb2. destruct (plus4 r1) as [[d4 r2]|]; [|eauto].
    destruct (word_boundary (last d4) (head r2)); [|eauto].
    eexists. split; [done|]. rewrite length_append. lia.
  - rewrite Hp, Hb3. eauto.
Qed.

Lemma match_zip_word_none prev (s : string) :
  match_zip_word prev s = None → ∀ m, ¬ whole_word_at prev s m.
Proof.
  intros Hn m (m' & Hm' & _)%match_zip_word_complete. congruence.
Qed.

Lemma match_zip_word_longest prev (s m : string) :
  match_zip_word prev s = Some m →
  ∀ m', whole_word_at prev s m' →
        (String.length m' ≤ String.length m)%nat.
Proof.
  intros Hm m' (m'' & Hm'' & Hle)%match_zip_word_complete.
  congruence.
Qed.

(** The state of the scan once the characters of a match are passed. *)
Lemma findall_from_skip (m r : string) prev :
  findall_from prev (String.length m) (m +:+ r)
  = findall_from (from_option Some prev (last m)) 0 r.
Proof.
  revert prev. induction m as [|c m IH]; intros prev; [done|].
  cbn [String.length String.append findall_from].
  rewrite IH, last_cons. by destruct (last m).
Qed.

Lemma findall_from_match prev (m r : string) :
  match_zip_word prev (m +:+ r) = Some m →
  findall_from prev 0 (m +:+ r) = m :: findall_from (last m) 0 r.
Proof.
  intros Hm.
  assert (m ≠ "") as Hne.
  { apply match_zip_word_sound in Hm as (_ & _ & Hf & _).
    by apply zip_format_nonempty. }
  destruct m as [|c m]; [done|].
  cbn [String.append findall_from].
  change (String c (m +:+ r)) with (String c m +:+ r). rewrite Hm.
  cbn [String.length]. rewrite Nat.sub_1_r. cbn [Nat.pred].
  rewrite findall_from_skip, last_cons. by destruct (last m).
Qed.

(** The first pass reports the matches of the left-to-right scan. *)
Lemma findall_from_scan (s : string) prev :
  scan prev s (findall_from prev 0 s).
Proof.
  remember (String.length s) as n eqn:Hn.
  revert s prev Hn. induction (lt_wf n) as [n _ IH]. intros s prev ->.
  destruct s as [|c s]; [constructor|].
  destruct (match_zip_word prev (String c s)) as [m|] eqn:Hm.
  - pose proof (match_zip_word_sound _ _ _ Hm) as Hw.
    pose proof Hw as (r & Hs & Hf & _).
    rewrite Hs in Hm |- *. rewrite findall_from_match by done.
    apply scan_match.
    + by rewrite <- Hs.
    + by apply match_zip_word_longest.
    + eapply IH; [|done]. rewrite Hs, length_append.
      destruct (zip_format_length _ Hf); lia.
  - cbn [findall_from]. rewrite Hm. apply scan_skip.
    + by apply match_zip_word_none.
    + eapply IH; [|done]. simpl. lia.
Qed.

(** The scan has one outcome only. *)
Lemma scan_findall_from prev (s : string) ms :
  scan prev s ms → ms = findall_from prev 0 s.
Proof.
  induction 1 as [prev|prev c s ms Hno _ IH|prev m r ms Hw Hlong _ IH].
  - done.
  - cbn [findall_from].
    destruct (match_zip_word prev (String c s)) as [m|] eqn:Hm; [|done].
    apply match_zip_word_sound in Hm. by destruct (Hno m).
  - destruct (match_zip_word_complete _ _ _ Hw) as (m' & Hm' & Hle).
    pose proof (match_zip_word_sound _ _ _ Hm') as Hw'.
    pose proof (Hlong _ Hw') as Hge.
    destruct Hw' as (r' & Heq & _).
    apply append_inv_length in Heq as [-> ->]; [|lia].
    rewrite findall_from_match by done. by rewrite IH.
Qed.

(** Every reported match stands in the text as a whole word. *)
Lemma scan_occurs prev (s : string) ms m :
  scan prev s ms → m ∈ ms →
  ∃ l r, s = l +:+ m +:+ r
         ∧ whole_word_at (from_option Some prev (last l)) (m +:+ r) m.
Proof.
  induction 1 as [prev|prev c s ms Hno _ IH|prev m0 r0 ms Hw Hlong _ IH].
  - by intros ?%elem_of_nil.
  - intros (l & r & -> & Hm)%IH. exists (String c l), r. split; [done|].
    by rewrite prev_after_cons.
  - intros [->|Hin]%elem_of_cons.
    + exists "", r0. done.
    + destruct (IH Hin) as (l & r & -> & Hm).
      exists (m0 +:+ l), r. rewrite append_assoc. split; [done|].
      rewrite prev_after_app; [done|].
      destruct Hw as (_ & _ & Hf & _). by apply zip_format_nonempty.
Qed.

(** Nothing is reported only when no whole-word ZIP stands anywhere. *)
Lemma scan_nil prev (s : string) :
  scan prev s [] →
  ∀ l m r, s = l +:+ m +:+ r →
           ¬ whole_word_at (from_option Some prev (last l)) (m +:+ r) m.
Proof.
  remember [] as ms eqn:Hms.
  induction 1 as [prev|prev c s ms Hno _ IH|]; [| |done].
  - intros l m r Hs (_ & _ & Hf%zip_format_nonempty & _).
    destruct l; [|done]. by destruct m.
  - intros [|x l] m r Hs.
    + simpl in Hs. rewrite <- Hs. apply Hno.
    + simpl in Hs. injection Hs as <- ->.
      rewrite prev_after_cons. by apply IH.
Qed.

Lemma decimal_is_word c : is_decimal c = true → is_word c = true.
Proof.
  intros Hc. unfold is_word, is_numeric, is_digit. rewrite Hc.
  by rewrite orb_true_r.
Qed.

(** A text in ZIP format, character by character. *)
Lemma zip_format_chars (m : string) :
  zip_format m →
  ∃ d1 d2 d3 d4 d5 t,
    m = String d1 (String d2 (String d3 (String d4 (String d5 t))))
    ∧ is_decimal d1 = true ∧ is_decimal d2 = true ∧ is_decimal d3 = true
    ∧ is_decimal d4 = true ∧ is_decimal d5 = true
    ∧ (t = ""
       ∨ ∃ x1 x2 x3 x4,
           t = String hyphen (String x1 (String x2 (String x3 (String x4 ""))))
           ∧ is_decimal x1 = true ∧ is_decimal x2 = true
           ∧ is_decimal x3 = true ∧ is_decimal x4 = true).
Proof.
  assert (∀ a : string, zip5 a →
            ∃ d1 d2 d3 d4 d5,
              a = String d1 (String d2 (String d3 (String d4 (String d5 ""))))
              ∧ is_decimal d1 = true ∧ is_decimal d2 = true
              ∧ is_decimal d3 = true ∧ is_decimal d4 = true
              ∧ is_decimal d5 = true) as H5.
  { intros a [Hlen Hall].
    destruct a as [|d1 [|d2 [|d3 [|d4 [|d5 [|? ?]]]]]]; try discriminate.
    cbn [all] in Hall. rewrite !andb_true_iff in Hall.
    destruct Hall as (? & ? & ? & ? & ? & _).
    by exists d1, d2, d3, d4, d5. }
  intros [Ha|(a & b & -> & Ha & Hlen & Hall)].
  - destruct (H5 _ Ha)
      as (d1 & d2 & d3 & d4 & d5 & -> & ? & ? & ? & ? & ?).
    exists d1, d2, d3, d4, d5, "". repeat (split; [done|]). by left.
  - destruct (H5 _ Ha)
      as (d1 & d2 & d3 & d4 & d5 & -> & ? & ? & ? & ? & ?).
    destruct b as [|x1 [|x2 [|x3 [|x4 [|? ?]]]]]; try discriminate.
    cbn [all] in Hall. rewrite !andb_true_iff in Hall.
    destruct Hall as (? & ? & ? & ? & _).
    exists d1, d2, d3, d4, d5,
      (String hyphen (String x1 (String x2 (String x3 (String x4 ""))))).
    repeat (split; [done|]).
    right. by exists x1, x2, x3, x4.
Qed.

(** No whole-word ZIP starts inside a reported match: after a digit there
    is no word boundary, and after the hyphen of a ZIP+4 a fifth digit is
    missing. *)
Lemma no_match_inside prev (m0 r0 l s' m : string) :
  whole_word_at prev (m0 +:+ r0) m0 →
  m0 +:+ r0 = l +:+ s' →
  l ≠ "" → (String.length l < String.length m0)%nat →
  ¬ whole_word_at (last l) s' m.
Proof.
  intros (r & Hr & Hf & _ & Hend) Heq Hl Hlen Hw.
  apply append_inv_length in Hr as [_ <-]; [|done].
  apply whole_word_at_inv in Hw as (Hb & d5' & r1 & Hd & _).
  destruct (zip_format_chars _ Hf)
    as (d1 & d2 & d3 & d4 & d5 & t & -> & H1 & H2 & H3 & H4 & H5 & Ht).
  pose proof (decimal_is_word _ H1) as W1.
  pose proof (decimal_is_word _ H2) as W2.
  pose proof (decimal_is_word _ H3) as W3.
  pose proof (decimal_is_word _ H4) as W4.
  pose proof (decimal_is_word _ H5) as W5.
  assert (is_word hyphen = false) as Wh by reflexivity.
  assert (is_decimal hyphen = false) as Dh by reflexivity.
  destruct Ht as [->|(x1 & x2 & x3 & x4 & -> & X1 & X2 & X3 & X4)].
  - cbn [String.append String.length] in Heq, Hlen.
    repeat (destruct l as [|? l];
            [try done;
             cbn [String.append] in Heq; subst s';
             cbn [last head] in Hb; unfold word_boundary, is_word_opt in Hb;
             cbn [from_option] in Hb;
             rewrite ?W1, ?W2, ?W3, ?W4, ?W5 in Hb; by cbn [xorb] in Hb
            |cbn [String.append] in Heq; injection Heq as <- Heq;
             cbn [String.length] in Hlen]);
      lia.
  - pose proof (decimal_is_word _ X1) as V1.
    pose proof (decimal_is_word _ X2) as V2.
    pose proof (decimal_is_word _ X3) as V3.
    pose proof (decimal_is_word _ X4) as V4.
    cbn [String.append String.length] in Heq, Hlen.
    cbn [String.append last head] in Hend.
    repeat (destruct l as [|? l];
            [try done;
             cbn [String.append] in Heq; subst s';
             cbn [last head] in Hb; unfold word_boundary, is_word_opt in Hb;
             cbn [from_option] in Hb;
             rewrite ?W1, ?W2, ?W3, ?W4, ?W5, ?V1, ?V2, ?V3, ?V4, ?Wh in Hb;
             cbn [xorb] in Hb; try done;
             cbn [digits] in Hd;
             rewrite ?Dh, ?X1, ?X2, ?X3, ?X4 in Hd; try done;
             (destruct r0 as [|c r0]; [by simpl in Hd|]);
             (destruct (is_decimal c) eqn:Hc; [|by simpl in Hd]);
             cbn [head] in Hend; unfold word_boundary, is_word_opt in Hend;
             cbn [from_option] in Hend;
             rewrite V4, (decimal_is_word _ Hc) in Hend;
             by cbn [xorb] in Hend
            |cbn [String.append] in Heq; injection Heq as <- Heq;
             cbn [String.length] in Hlen]);
      lia.
Qed.

Lemma append_split_prefix (a b l t : string) :
  a +:+ b = l +:+ t → (String.length a ≤ String.length l)%nat →
  ∃ l', l = a +:+ l' ∧ b = l' +:+ t.
Proof.
  revert l. induction a as [|c a IH]; intros l Heq Hlen.
  - by exists l.
  - destruct l as [|x l]; [simpl in Hlen; lia|].
    simpl in Heq. injection Heq as <- Heq.
    destruct (IH l Heq) as (l' & -> & ->); [simpl in Hlen; lia|].
    by exists l'.
Qed.

(** Every whole-word ZIP of the text is reported, but for the five digits
    of a reported ZIP+4. *)
Lemma scan_complete prev (s : string) ms :
  scan prev s ms →
  ∀ l m r, s = l +:+ m +:+ r →
    whole_word_at (from_option Some prev (last l)) (m +:+ r) m →
    m ∈ ms
    ∨ ∃ x r', r = String hyphen (x +:+ r') ∧ plus4_digits x
              ∧ m +:+ String hyphen x ∈ ms.
Proof.
  induction 1 as [prev|prev c s ms Hno _ IH|prev m0 r0 ms Hw0 Hlong _ IH].
  - intros l m r Hs (_ & _ & Hf%zip_format_nonempty & _).
    destruct l; [|done]. by destruct m.
  - intros [|x l] m r Hs Hw.
    + simpl in Hs, Hw. rewrite <- Hs in Hw. by destruct (Hno m).
    + simpl in Hs. injection Hs as <- ->.
      rewrite prev_after_cons in Hw. by apply (IH l m r).
  - intros l m r Hs Hw.
    pose proof Hw0 as (_ & _ & Hf0 & _).
    pose proof (zip_format_nonempty _ Hf0) as Hne0.
    destruct (decide (String.length m0 ≤ String.length l)%nat) as [Hle|Hgt].
    { destruct (append_split_prefix _ _ _ _ Hs Hle) as (l' & -> & ->).
      rewrite (prev_after_app prev m0 l') in Hw by done.
      destruct (IH l' m r eq_refl Hw) as [Hin|(x & r' & Hr & Hx & Hin)].
      - left. by apply list_elem_of_further.
      - right. exists x, r'. split; [done|]. split; [done|].
        by apply list_elem_of_further. }
    destruct l as [|x l].
    + cbn [String.append last from_option] in Hs, Hw.
      rewrite <- Hs in Hw. pose proof (Hlong _ Hw) as Hlen.
      pose proof Hw as (_ & _ & Hf & _).
      destruct (decide (String.length m = String.length m0)) as [He|Hn].
      * symmetry in Hs.
        apply append_inv_length in Hs as [-> _]; [|done].
        left. apply list_elem_of_here.
      * right.
        destruct (zip_format_length _ Hf) as [L5|L10];
          destruct (zip_format_length _ Hf0) as [L5'|L10']; try lia.
        destruct Hf0 as [[L5' _]|(a & b & -> & [La Ha] & Hb)]; [lia|].
        rewrite append_assoc in Hs. symmetry in Hs.
        apply append_inv_length in Hs as [-> Hr]; [|lia].
        exists b, r0. split; [by rewrite Hr|]. split; [done|].
        apply list_elem_of_here.
    + exfalso.
      eapply (no_match_inside prev m0 r0 (String x l) (m +:+ r) m);
        [done|done|done|lia|].
      rewrite last_cons in Hw |- *. exact Hw.
Qed.

End Scan.

(** ** The tokens of the fallback pass *)

Section Tokens.
Import PyStr Re.

Lemma split_from_nonempty b (s : string) : split_from b s ≠ [].
Proof.
  revert b. induction s as [|c s IH]; intros b; simpl; [done|].
  destruct (is_sep c).
  - destruct b; [apply IH|done].
  - by destruct (split_from false s).
Qed.

Lemma tokens_cons c (s t : string) ts :
  is_sep c = false → tokens s (t :: ts) →
  tokens (String c s) (String c t :: ts).
Proof.
  intros Hc Ht. inversion Ht as [t' Hfree|t' sep s' ts' Hfree Hsep Hhd Hts];
    subst.
  - apply tokens_last. unfold sep_free in *. simpl. by rewrite Hc.
  - change (String c (t +:+ sep +:+ s')) with (String c t +:+ sep +:+ s').
    apply tokens_more; try done.
    unfold sep_free in *. simpl. by rewrite Hc.
Qed.

Lemma tokens_longer_run c (s : string) ts :
  is_sep c = true → head s ≠ None →
  from_option is_sep false (head s) = true →
  tokens s ("" :: ts) → tokens (String c s) ("" :: ts).
Proof.
  intros Hc Hne Hhd Ht.
  inversion Ht as [t' Hfree|t' sep s' ts' Hfree Hsep Hhd' Hts]; subst.
  - done.
  - change (String c ("" +:+ sep +:+ s')) with ("" +:+ String c sep +:+ s').
    apply tokens_more; try done.
    destruct Hsep as [? Hall]. split; [done|]. simpl. by rewrite Hc.
Qed.

Lemma tokens_after_sep c (s : string) ts :
  is_sep c = true →
  from_option (λ c, negb (is_sep c)) true (head s) = true →
  tokens s ts → tokens (String c s) ("" :: ts).
Proof.
  intros Hc Hhd Ht.
  change (String c s) with ("" +:+ String c "" +:+ s).
  apply tokens_more; try done.
  split; [done|]. simpl. by rewrite Hc.
Qed.

Lemma split_from_tokens (s : string) :
  tokens s (split_from false s)
  ∧ ∀ c, is_sep c = true → tokens (String c s) ("" :: split_from true s).
Proof.
  induction s as [|d s [IH1 IH2]].
  - split; [by apply tokens_last|].
    intros c Hc. apply tokens_after_sep; try done. by apply tokens_last.
  - destruct (is_sep d) eqn:Hd.
    + assert (tokens (String d s) (split_from false (String d s))) as H1.
      { simpl. rewrite Hd. by apply IH2. }
      split; [done|]. intros c Hc.
      cbn [split_from]. rewrite Hd.
      apply tokens_longer_run; try done. by apply IH2.
    + assert (tokens (String d s) (split_from false (String d s))) as H1.
      { cbn [split_from]. rewrite Hd.
        destruct (split_from false s) as [|t ts] eqn:Hs.
        - by destruct (split_from_nonempty false s).
        - by apply tokens_cons. }
      split; [done|]. intros c Hc.
      assert (split_from true (String d s) = split_from false (String d s))
        as -> by (cbn [split_from]; by rewrite Hd).
      apply tokens_after_sep; try done. simpl. by rewrite Hd.
Qed.

(** [re.split] gives the tokens between the runs of separators. *)
Lemma split_seps_tokens (s : string) : tokens s (split_seps s).
Proof. apply split_from_tokens. Qed.

Lemma tokens_sep_free (s : string) ts :
  tokens s ts → Forall sep_free ts.
Proof. induction 1; constructor; auto. Qed.

Lemma space_is_sep c : is_space c = true → is_sep c = true.
Proof. unfold is_sep. intros ->. by rewrite orb_true_r. Qed.

Lemma rstrip_sep_free (t : string) : sep_free t → rstrip_by is_space t = t.
Proof.
  unfold sep_free. induction t as [|c t IH]; simpl; [done|].
  intros [Hc Ht]%andb_true_iff. rewrite IH by done.
  destruct t; [|done].
  destruct (is_space c) eqn:Hs; [|done].
  apply space_is_sep in Hs. by rewrite Hs in Hc.
Qed.

Lemma strip_sep_free (t : string) : sep_free t → strip t = t.
Proof.
  intros Ht. unfold strip.
  assert (lstrip_by is_space t = t) as ->; [|by apply rstrip_sep_free].
  destruct t as [|c t]; simpl; [done|].
  unfold sep_free in Ht. simpl in Ht.
  apply andb_true_iff in Ht as [Hc _].
  destruct (is_space c) eqn:Hs; [|done].
  apply space_is_sep in Hs. by rewrite Hs in Hc.
Qed.

(** The fallback pass keeps the tokens that are digit strings. *)
Lemma fallback_tokens (ts : list string) :
  Forall sep_free ts →
  strip <$> filter (λ z, truthy (strip z) && isdigit (strip z) = true) ts
  = filter (λ z, isdigit z = true) ts.
Proof.
  induction 1 as [|t ts Ht _ IH]; [done|].
  assert (truthy (strip t) && isdigit (strip t) = isdigit t) as Heq.
  { rewrite (strip_sep_free t Ht). unfold isdigit. by destruct (truthy t). }
  destruct (isdigit t) eqn:Hd.
  - rewrite !filter_cons_True by congruence.
    by rewrite fmap_cons, (strip_sep_free t Ht), IH.
  - rewrite !filter_cons_False by congruence. done.
Qed.

Lemma extract_zip_list_text (s : string) :
  extract_zip_list (Text s)
  = match findall_zip s with
    | [] => filter (λ z, isdigit z = true) (split_seps s)
    | zip_list => zip_list
    end.
Proof.
  unfold extract_zip_list. destruct (findall_zip s); [|done].
  apply fallback_tokens, (tokens_sep_free s), split_seps_tokens.
Qed.

End Tokens.

(** ** The grouping loop *)

Section Grouping.
Variable me : ZipCodeMapper.

Lemma logged_nil w : logged w [] = w.
Proof. destruct w. unfold logged. simpl. by rewrite app_nil_r. Qed.

Lemma resolve_some z state :
  resolve me z = Some state →
  validate_zip_code me z = true ∧ get_state_for_zip me z = Some state
  ∧ state ≠ "".
Proof.
  unfold resolve. destruct (validate_zip_code me z); [|done].
  destruct (get_state_for_zip me z) as [[|c st]|]; [done| |done].
  by intros [= <-].
Qed.

Lemma resolve_none z :
  resolve me z = None ↔
  validate_zip_code me z = false ∨ get_state_for_zip me z = None
  ∨ get_state_for_zip me z = Some "".
Proof.
  unfold resolve. destruct (validate_zip_code me z); [|by split; auto].
  destruct (get_state_for_zip me z) as [[|c st]|]; split; auto;
    intros [?|[?|?]]; done.
Qed.

Lemma rejection_none z :
  resolve me z = None →
  ∃ msg, rejection me z = [(WARNING, msg +:+ z)].
Proof.
  unfold rejection. intros ->. destruct (validate_zip_code me z); eauto.
Qed.

Lemma dict_get_None k (d : groups) : dict_get k d = None ↔ k ∉ d.*1.
Proof.
  induction d as [|[k' v] d IH]; cbn [dict_get].
  - split; [intros _; apply not_elem_of_nil|done].
  - rewrite fmap_cons, not_elem_of_cons. cbn [fst].
    destruct (decide (k' = k)) as [->|Hne].
    + split; [done|]. by intros [? _].
    + rewrite IH. split; [by auto|]. by intros [_ ?].
Qed.

Lemma dict_get_elem k v (d : groups) :
  NoDup d.*1 → (k, v) ∈ d → dict_get k d = Some v.
Proof.
  induction d as [|[k' v'] d IH]; simpl.
  - by intros _ ?%elem_of_nil.
  - intros [Hk Hd]%NoDup_cons [[= -> ->]|Hin]%elem_of_cons.
    + by rewrite decide_True.
    + rewrite decide_False; [by apply IH|].
      intros ->. apply Hk. apply list_elem_of_fmap. by exists (k, v).
Qed.

Lemma dict_get_app k (d1 d2 : groups) :
  dict_get k (d1 ++ d2)
  = match dict_get k d1 with Some v => Some v | None => dict_get k d2 end.
Proof.
  induction d1 as [|[k' v] d1 IH]; simpl; [done|].
  by destruct (decide (k' = k)).
Qed.

Lemma dict_get_append k st x (d : groups) :
  dict_get k (dict_append st x d)
  = if decide (k = st) then (λ v, v ++ [x]) <$> dict_get st d
    else dict_get k d.
Proof.
  induction d as [|[k' v] d IH]; simpl.
  - by destruct (decide (k = st)).
  - destruct (decide (k' = st)) as [->|Hne]; simpl.
    + destruct (decide (st = k)) as [->|]; [by rewrite decide_True|].
      by rewrite decide_False.
    + destruct (decide (k' = k)) as [->|].
      * by rewrite decide_False.
      * done.
Qed.

Lemma dict_get_ensure k st (d : groups) :
  dict_get k (dict_ensure st d)
  = if decide (k = st) then Some (default [] (dict_get st d))
    else dict_get k d.
Proof.
  unfold dict_ensure. destruct (dict_get st d) as [v|] eqn:Hst.
  - destruct (decide (k = st)) as [->|]; done.
  - rewrite dict_get_app. simpl.
    destruct (decide (k = st)) as [->|].
    + rewrite Hst. by rewrite decide_True.
    + rewrite decide_False by done. by destruct (dict_get k d).
Qed.

Lemma keys_dict_append st x (d : groups) : (dict_append st x d).*1 = d.*1.
Proof.
  induction d as [|[k' v] d IH]; [done|]. cbn [dict_append].
  destruct (decide (k' = st)); rewrite !fmap_cons; [done|]. by rewrite IH.
Qed.

Lemma keys_dict_ensure st (d : groups) :
  (dict_ensure st d).*1 = if decide (st ∈ d.*1) then d.*1 else d.*1 ++ [st].
Proof.
  unfold dict_ensure. destruct (dict_get st d) as [v|] eqn:Hst.
  - rewrite decide_True; [done|].
    destruct (decide (st ∈ d.*1)) as [|Hn]; [done|].
    apply dict_get_None in Hn. congruence.
  - apply dict_get_None in Hst. rewrite decide_False by done.
    by rewrite fmap_app.
Qed.

Lemma dict_get_group_step k (d : groups) z :
  dict_get k (group_step me d z)
  = if decide (resolve me z = Some k)
    then Some (default [] (dict_get k d) ++ [z])
    else dict_get k d.
Proof.
  unfold group_step. destruct (resolve me z) as [st|] eqn:Hz.
  - rewrite dict_get_append, dict_get_ensure.
    destruct (decide (k = st)) as [->|Hne].
    + rewrite !decide_True by done. done.
    + rewrite decide_False by (by intros [= ->]).
      by rewrite dict_get_ensure, decide_False.
  - by rewrite decide_False.
Qed.

Lemma keys_group_step (d : groups) z :
  (group_step me d z).*1
  = match resolve me z with
    | Some st => if decide (st ∈ d.*1) then d.*1 else d.*1 ++ [st]
    | None => d.*1
    end.
Proof.
  unfold group_step. destruct (resolve me z) as [st|]; [|done].
  by rewrite keys_dict_append, keys_dict_ensure.
Qed.

(** What a state's sequence holds after the loop. *)
Lemma dict_get_foldl k zs (d : groups) :
  dict_get k (foldl (group_step me) d zs)
  = extend (dict_get k d) (filed_under me k zs).
Proof.
  revert d. induction zs as [|z zs IH]; intros d; simpl.
  - unfold extend, filed_under. simpl.
    destruct (dict_get k d); simpl; by rewrite ?app_nil_r.
  - rewrite IH, dict_get_group_step. unfold filed_under.
    destruct (decide (resolve me z = Some k)) as [Hz|Hz].
    + rewrite filter_cons_True by done. unfold extend.
      destruct (dict_get k d); simpl;
        destruct (filter _ zs); simpl; by rewrite <- ?app_assoc.
    + by rewrite filter_cons_False.
Qed.

(** The keys after the loop, in the order they were created. *)
Lemma keys_foldl zs (d : groups) :
  (foldl (group_step me) d zs).*1
  = foldl (λ acc x, if decide (x ∈ acc) then acc else acc ++ [x])
          d.*1 (omap (resolve me) zs).
Proof.
  revert d. induction zs as [|z zs IH]; intros d; simpl; [done|].
  rewrite IH, keys_group_step. by destruct (resolve me z).
Qed.

Lemma first_occurrences_NoDup_from acc (l : list string) :
  NoDup acc →
  NoDup (foldl (λ acc x, if decide (x ∈ acc) then acc else acc ++ [x])
               acc l).
Proof.
  revert acc. induction l as [|x l IH]; intros acc Hacc; simpl; [done|].
  apply IH. destruct (decide (x ∈ acc)); [done|].
  apply NoDup_app. split; [done|]. split; [|apply NoDup_singleton].
  intros y Hy ->%list_elem_of_singleton. done.
Qed.

Lemma grouping_get inp k :
  dict_get k (grouping me inp)
  = match filed_under me k (extract_zip_list inp) with
    | [] => None
    | zs => Some zs
    end.
Proof. unfold grouping. rewrite dict_get_foldl. simpl. by destruct filed_under. Qed.

Lemma grouping_keys inp :
  (grouping me inp).*1
  = first_occurrences (omap (resolve me) (extract_zip_list inp)).
Proof. unfold grouping. by rewrite keys_foldl. Qed.

Lemma grouping_NoDup inp : NoDup (grouping me inp).*1.
Proof.
  rewrite grouping_keys. apply first_occurrences_NoDup_from, NoDup_nil_2.
Qed.

(** The entries of the grouping. *)
Lemma grouping_elem inp k zs :
  (k, zs) ∈ grouping me inp →
  zs = filed_under me k (extract_zip_list inp) ∧ zs ≠ [].
Proof.
  intros Hin. apply dict_get_elem in Hin; [|apply grouping_NoDup].
  rewrite grouping_get in Hin.
  destruct (filed_under me k _) eqn:Hf; [done|].
  by injection Hin as <-.
Qed.

Lemma filed_under_elem k zs z :
  z ∈ filed_under me k zs ↔ z ∈ zs ∧ resolve me z = Some k.
Proof. unfold filed_under. by rewrite list_elem_of_filter, (comm and). Qed.

Lemma grouping_all_rejected inp :
  (∀ z, z ∈ extract_zip_list inp → resolve me z = None) →
  grouping me inp = [].
Proof.
  intros Hall. apply fmap_nil_inv with (f := fst).
  rewrite grouping_keys.
  assert (omap (resolve me) (extract_zip_list inp) = []) as ->; [|done].
  induction (extract_zip_list inp) as [|z zs IH]; [done|].
  simpl. rewrite (Hall z) by apply list_elem_of_here.
  apply IH. intros z' Hz'. apply Hall. by apply list_elem_of_further.
Qed.

End Grouping.

(** ** Running [process_zip_codes] *)

Section Run.

Lemma process_loop_run zs res inv w :
  process_loop zs res inv w
  = (Ok (foldl (group_step (self w)) res zs, inv ++ rejected (self w) zs),
     logged w (z ← zs; rejection (self w) z)).
Proof.
  revert res inv w. induction zs as [|z zs IH]; intros res inv w.
  - simpl. by rewrite logged_nil, app_nil_r.
  - cbn [process_loop foldl mbind list_bind].
    unfold bind at 1, get_self at 1, rejected.
    destruct (resolve (self w) z) as [state|] eqn:Hr.
    + rewrite filter_cons_False by (rewrite Hr; done).
      unfold rejection at 1, group_step at 2. rewrite Hr.
      apply resolve_some in Hr as (Hv & Hs & Hne). rewrite Hv.
      cbn [negb]. unfold bind at 1, get_self at 1. rewrite Hs.
      destruct state; [done|]. by rewrite IH.
    + rewrite filter_cons_True by done.
      unfold rejection at 1, group_step at 2. rewrite Hr.
      apply resolve_none in Hr.
      destruct (validate_zip_code (self w) z) eqn:Hv; cbn [negb].
      * unfold bind at 1, get_self at 1.
        assert (∀ k : M (groups * list string),
                  match get_state_for_zip (self w) z with
                  | Some (String _ _ as state) =>
                      process_loop zs
                        (dict_append state z (dict_ensure state res)) inv
                  | _ => k
                  end = k) as ->.
        { intros k. destruct Hr as [?|[-> | ->]]; done. }
        unfold bind at 1, logger at 1. rewrite IH.
        unfold logged, rejected. cbn [self log made_dirs].
        by rewrite <- !app_assoc.
      * unfold bind at 1, logger at 1. rewrite IH.
        unfold logged, rejected. cbn [self log made_dirs].
        by rewrite <- !app_assoc.
Qed.

(** A call returns the grouping of its candidates and only adds to the
    log. *)
Lemma process_zip_codes_run inp w :
  process_zip_codes inp w
  = (Ok (grouping (self w) inp), logged w (process_log (self w) inp)).
Proof.
  unfold process_zip_codes, bind at 1. rewrite process_loop_run.
  cbn [fst snd app]. unfold grouping, process_log.
  destruct (rejected (self w) (extract_zip_list inp)) eqn:Hr.
  - unfold bind, ret. simpl. by rewrite app_nil_r.
  - unfold bind, logger, ret. cbn [self log made_dirs logged summary].
    by rewrite <- app_assoc.
Qed.

End Run.

(** ** URLs of states *)

Section Urls.

Lemma urls_loop_run states base_url urls w :
  urls_loop states base_url urls w
  = (Ok (urls_of base_url states urls),
     logged w (state ← states; unknown_state state)).
Proof.
  revert urls w. induction states as [|state states IH]; intros urls w.
  - simpl. by rewrite logged_nil.
  - cbn [urls_loop mbind list_bind]. unfold urls_of. cbn [foldl].
    unfold url_entry at 2, unknown_state at 1.
    destruct (state_names !! state) as [name|]; cbn [mbind option_bind].
    + by rewrite IH.
    + unfold bind, logger. rewrite IH. unfold logged. cbn [self log made_dirs].
      by rewrite <- app_assoc.
Qed.

Lemma urls_of_lookup base_url states urls code :
  urls_of base_url states urls !! code
  = if decide (code ∈ states)
    then match url_entry base_url code with
         | Some e => Some e
         | None => urls !! code
         end
    else urls !! code.
Proof.
  revert urls. induction states as [|state states IH]; intros urls.
  - by rewrite decide_False by apply not_elem_of_nil.
  - unfold urls_of in *. cbn [foldl]. rewrite IH.
    destruct (decide (code = state)) as [->|Hne].
    + rewrite (decide_True (P := state ∈ state :: states))
        by apply list_elem_of_here.
      destruct (url_entry base_url state) as [e|].
      * rewrite lookup_insert_eq. by destruct (decide (state ∈ states)).
      * by destruct (decide (state ∈ states)).
    + assert ((match url_entry base_url state with
               | Some e => <[state := e]> urls
               | None => urls
               end) !! code = urls !! code) as ->.
      { destruct (url_entry base_url state); [|done].
        by rewrite lookup_insert_ne. }
      destruct (decide (code ∈ states)) as [Hin|Hin].
      * by rewrite decide_True by by apply list_elem_of_further.
      * rewrite decide_False; [done|].
        by intros [?|?]%elem_of_cons.
Qed.

Lemma state_names_elem code name :
  state_names !! code = Some name → (code, name) ∈ state_names_items.
Proof. apply elem_of_list_to_map_2. Qed.

Lemma state_names_items_canonical :
  forallb (λ e, is_state_abbr e.1 && is_canonical_name e.2)
          state_names_items = true.
Proof. vm_compute. reflexivity. Qed.

Lemma state_names_canonical code name :
  state_names !! code = Some name →
  is_state_abbr code = true ∧ is_canonical_name name = true.
Proof.
  intros Hin%state_names_elem%list_elem_of_In.
  pose proof state_names_items_canonical as Hall.
  rewrite forallb_forall in Hall. specialize (Hall _ Hin).
  by apply andb_true_iff in Hall.
Qed.

End Urls.

(** ** Loading the database *)

Lemma initial_entries_eq :
  initial_entries
  = (item ← state_ranges;
     (λ zip_code : Z, (PyStr.str zip_code, item.1))
       <$> py_range item.2.1 (item.2.2 + 1)).
Proof. reflexivity. Qed.

#[local] Opaque initial_entries.

Section Loading.

Lemma fill_app l1 l2 (m : gmap string string) :
  fill (l1 ++ l2) m = fill l2 (fill l1 m).
Proof. apply foldl_app. Qed.

Lemma last_value_snoc k l (e : string * string) :
  last_value k (l ++ [e])
  = if decide (e.1 = k) then Some e.2 else last_value k l.
Proof. unfold last_value. by rewrite foldl_snoc. Qed.

(** A lookup after storing entries: the last value stored for the key,
    the old value when none was. *)
Lemma fill_lookup l (m : gmap string string) k :
  fill l m !! k = match last_value k l with
                  | Some v => Some v
                  | None => m !! k
                  end.
Proof.
  induction l as [|e l IH] using rev_ind; [done|].
  unfold fill in *. rewrite foldl_snoc, last_value_snoc.
  destruct (decide (e.1 = k)) as [<-|Hne].
  - by rewrite lookup_insert_eq.
  - by rewrite lookup_insert_ne.
Qed.

Lemma last_value_elem k v l :
  last_value k l = Some v → (k, v) ∈ l.
Proof.
  induction l as [|e l IH] using rev_ind; [done|].
  rewrite last_value_snoc, elem_of_app, list_elem_of_singleton.
  destruct (decide (e.1 = k)) as [<-|Hne].
  - intros [= <-]. right. by destruct e.
  - auto.
Qed.

Lemma fill_twice l (m : gmap string string) : fill l (fill l m) = fill l m.
Proof.
  apply map_eq. intros k. rewrite !fill_lookup.
  by destruct (last_value k l).
Qed.


Lemma with_db_id w : with_db w (db_of w) = w.
Proof. by destruct w as [[] ? ?]. Qed.

(** A loop that only stores entries. *)
Lemma for_each_store {A} (xs : list A) (entry : A → option (string * string))
    (body : A → M unit) w :
  (∀ x w, body x w
          = match entry x with
            | Some e => store e.1 e.2 w
            | None => (Ok tt, w)
            end) →
  for_each xs body w = (Ok tt, with_db w (fill (omap entry xs) (db_of w))).
Proof.
  intros Hbody. revert w. induction xs as [|x xs IH]; intros w.
  - simpl. by rewrite with_db_id.
  - cbn [for_each omap list_omap]. unfold bind. rewrite Hbody.
    destruct (entry x) as [e|]; [|by rewrite IH].
    unfold store. rewrite IH. done.
Qed.

Lemma load_rows_run rows w :
  for_each rows load_row w
  = (Ok tt, with_db w (fill (omap row_entry rows) (db_of w))).
Proof.
  apply for_each_store. intros row w'. unfold load_row, row_entry.
  destruct (py_or (py_or (row !! "zip_code") (row !! "zipcode"))
              (row !! "ZIP")) as [[|? ?]|];
    destruct (py_or (py_or (row !! "state") (row !! "STATE"))
                (row !! "state_abbr")) as [[|? ?]|]; done.
Qed.

Lemma omap_Some_fmap {A B} (f : A → B) (l : list A) :
  omap (λ x, Some (f x)) l = f <$> l.
Proof. induction l as [|x l IH]; csimpl; [done|]. by rewrite IH. Qed.

Lemma fill_ranges_run (items : list (string * (Z * Z))) w :
  for_each items (λ item,
    let state := item.1 in
    let start := item.2.1 in
    let end_ := item.2.2 in
    for_each (py_range start (end_ + 1)) (λ zip_code,
      store (PyStr.str zip_code) state)) w
  = (Ok tt,
     with_db w
       (fill (item ← items;
              (λ zip_code : Z, (PyStr.str zip_code, item.1))
                <$> py_range item.2.1 (item.2.2 + 1))
             (db_of w))).
Proof.
  revert w. induction items as [|item items IH]; intros w.
  - simpl. by rewrite with_db_id.
  - cbn [for_each mbind list_bind]. unfold bind at 1. cbn zeta.
    rewrite (for_each_store _
               (λ zip_code : Z, Some (PyStr.str zip_code, item.1))) by done.
    rewrite IH, omap_Some_fmap, fill_app. done.
Qed.

Lemma create_initial_mapping_run w :
  _create_initial_mapping w
  = (Ok tt,
     logged (with_db w (fill initial_entries (db_of w)))
       [(INFO, "Created initial ZIP code mapping with basic ranges")]).
Proof.
  unfold _create_initial_mapping, bind at 1. rewrite fill_ranges_run.
  unfold bind, logger, logged. cbn [self log made_dirs].
  rewrite initial_entries_eq. reflexivity.
Qed.

Lemma load_from_csv_run fs p w :
  ∃ records,
    _load_from_csv fs p w
    = (match csv_error (fs_read fs p) with
       | None => Ok tt
       | Some e => Raised e
       end,
       logged
         (with_db w (fill (omap row_entry (csv_rows (fs_read fs p)))
                          (db_of w)))
         records).
Proof.
  unfold _load_from_csv, try_except, bind at 1. rewrite load_rows_run.
  destruct (csv_error (fs_read fs p)) as [e|].
  - eexists. unfold bind at 1, raise at 1.
    unfold bind, logger, raise. done.
  - eexists. unfold bind at 1, ret at 1.
    unfold bind, get_self, logger. done.
Qed.

Lemma download_run save_path w :
  ∃ records, _download_zip_database save_path w = (Ok tt, logged w records).
Proof.
  eexists. unfold _download_zip_database, try_except, bind, logger.
  unfold logged. cbn [self log made_dirs]. by rewrite <- app_assoc.
Qed.

Lemma selected_source_self fs (me : ZipCodeMapper) :
  selected_source fs (zip_database_path me)
  = match
      match zip_database_path me with
      | Some (String _ _ as p) => if fs_exists fs p then Some p else None
      | _ => None
      end
    with
    | Some p => Some p
    | None =>
        if fs_exists fs (default_db_path fs)
        then Some (default_db_path fs) else None
    end.
Proof.
  unfold selected_source.
  destruct (zip_database_path me) as [[|c p]|]; try done.
  by destruct (fs_exists fs (String c p)).
Qed.

(** [_load_zip_database] returns, and leaves the table of the source it
    selected. *)
Lemma load_zip_database_run fs w :
  db_of w = ∅ →
  ∃ w', _load_zip_database fs w = (Ok tt, w')
        ∧ db_of w' = loaded_table fs (zip_database_path (self w))
        ∧ zip_database_path (self w') = zip_database_path (self w).
Proof.
  intros Hempty.
  unfold loaded_table, initial_table. rewrite selected_source_self.
  unfold _load_zip_database, try_except, bind at 1, get_self at 1.
  set (custom := match zip_database_path (self w) with
                 | Some (String _ _ as p) =>
                     if fs_exists fs p then Some p else None
                 | _ => None
                 end).
  assert (∀ p,
    ∃ w', match _load_from_csv fs p w with
          | (Ok a, w') => (Ok a, w')
          | (Raised e, w') =>
              (logger ERROR ("Error loading ZIP code database: " +:+ e) >>
               _create_initial_mapping) w'
          end = (Ok tt, w')
          ∧ db_of w' = match csv_error (fs_read fs p) with
                       | None => rows_table fs p
                       | Some _ => fill initial_entries (rows_table fs p)
                       end
          ∧ zip_database_path (self w') = zip_database_path (self w))
    as Hfile.
  { intros p. destruct (load_from_csv_run fs p w) as (records & ->).
    rewrite Hempty. fold (rows_table fs p).
    destruct (csv_error (fs_read fs p)) as [e|].
    - unfold bind, logger. rewrite create_initial_mapping_run.
      eexists. split; [reflexivity|]. split; reflexivity.
    - eexists. split; [reflexivity|]. split; reflexivity. }
  destruct custom as [p|]; [apply Hfile|].
  destruct (fs_exists fs (default_db_path fs)); [apply Hfile|].
  unfold bind at 1. rewrite create_initial_mapping_run.
  unfold bind at 1, makedirs.
  destruct (fs_makedirs_error fs) as [e|].
  - unfold raise, bind, logger. rewrite create_initial_mapping_run.
    eexists. split; [reflexivity|]. split; [|reflexivity].
    cbn [db_of logged with_db self zip_to_state_map].
    fold (db_of w). rewrite Hempty. apply fill_twice.
  - destruct (download_run (default_db_path fs)
                (mkWorld
                   (self (logged (with_db w (fill initial_entries (db_of w)))
                      [(INFO, "Created initial ZIP code mapping with basic ranges")]))
                   (log (logged (with_db w (fill initial_entries (db_of w)))
                      [(INFO, "Created initial ZIP code mapping with basic ranges")]))
                   (made_dirs (logged (with_db w (fill initial_entries (db_of w)))
                      [(INFO, "Created initial ZIP code mapping with basic ranges")])
                    ++ [default_db_dir fs])))
      as (records & ->).
    eexists. split; [reflexivity|]. split; [|reflexivity].
    cbn [db_of logged with_db self zip_to_state_map].
    fold (db_of w). rewrite Hempty. reflexivity.
Qed.

(** The constructor returns, and the new mapper holds the table of the
    source selected for its path. *)
Lemma init_run fs path w :
  ∃ w', __init__ fs path w = (Ok tt, w')
        ∧ db_of w' = loaded_table fs path.
Proof.
  unfold __init__, bind, set_self. cbv beta iota.
  destruct (load_zip_database_run fs
              (mkWorld (mkMapper ∅ path) (log w) (made_dirs w)) eq_refl)
    as (w' & Hrun & Hdb & _).
  by exists w'.
Qed.

Lemma built_db_loaded fs path : built_db fs path = loaded_table fs path.
Proof.
  unfold built_db.
  destruct (init_run fs path (mkWorld (mkMapper ∅ None) [] []))
    as (w' & -> & Hdb).
  done.
Qed.

Lemma initial_entries_well_formed :
  forallb (λ e, is_zip_base e.1 && is_state_abbr e.2) initial_entries = true.
Proof. vm_compute. reflexivity. Qed.

Lemma initial_table_elem k v :
  initial_table !! k = Some v → (k, v) ∈ initial_entries.
Proof.
  unfold initial_table. rewrite fill_lookup, lookup_empty.
  destruct (last_value k initial_entries) eqn:Hl; [|done].
  intros [= ->]. by apply last_value_elem.
Qed.

Lemma initial_table_well_formed : well_formed_db initial_table.
Proof.
  intros k v Hin%initial_table_elem%list_elem_of_In.
  pose proof initial_entries_well_formed as Hall.
  rewrite forallb_forall in Hall. specialize (Hall _ Hin).
  by apply andb_true_iff in Hall.
Qed.

Lemma row_entry_nonempty row k v :
  row_entry row = Some (k, v) → k ≠ "" ∧ v ≠ "".
Proof.
  unfold row_entry.
  destruct (py_or (py_or (row !! "zip_code") (row !! "zipcode"))
              (row !! "ZIP")) as [[|? ?]|];
    destruct (py_or (py_or (row !! "state") (row !! "STATE"))
                (row !! "state_abbr")) as [[|? ?]|]; try done.
  by intros [= <- <-].
Qed.

Lemma fill_elem l (m : gmap string string) k v :
  fill l m !! k = Some v → (k, v) ∈ l ∨ m !! k = Some v.
Proof.
  rewrite fill_lookup. destruct (last_value k l) eqn:Hl; [|auto].
  intros [= ->]. left. by apply last_value_elem.
Qed.

Lemma rows_table_nonempty fs p k v :
  rows_table fs p !! k = Some v → k ≠ "" ∧ v ≠ "".
Proof.
  unfold rows_table. intros [Hin|Hin]%fill_elem; [|done].
  apply list_elem_of_omap in Hin as (row & _ & Hrow).
  by apply row_entry_nonempty in Hrow.
Qed.

Lemma initial_entries_nonempty k v :
  (k, v) ∈ initial_entries → k ≠ "" ∧ v ≠ "".
Proof.
  intros Hin%list_elem_of_In.
  pose proof initial_entries_well_formed as Hall.
  rewrite forallb_forall in Hall. specialize (Hall _ Hin).
  apply andb_true_iff in Hall as [Hk Hv]. clear Hin.
  cbn [fst snd] in Hk, Hv. split; intros ->; done.
Qed.

Lemma loaded_table_nonempty fs path k v :
  loaded_table fs path !! k = Some v → k ≠ "" ∧ v ≠ "".
Proof.
  unfold loaded_table. destruct (selected_source fs path) as [p|].
  - destruct (csv_error (fs_read fs p)).
    + intros [Hin|Hin]%fill_elem.
      * by apply initial_entries_nonempty.
      * by apply rows_table_nonempty in Hin.
    + apply rows_table_nonempty.
  - intros Hin%initial_table_elem. by apply initial_entries_nonempty.
Qed.

End Loading.

(** * The claims *)

Section Claims.
Import PyStr Re.

(** What validation answers on the examples of the specification. *)
Lemma validate_zip_code_examples (me : ZipCodeMapper) :
  validate_zip_code me "99501" = true
  ∧ validate_zip_code me "abc12" = false
  ∧ validate_zip_code me "123456" = false.
Proof.
  repeat split; try reflexivity.
  unfold validate_zip_code. apply orb_true_iff. right. reflexivity.
Qed.

(** C1.  [validate_zip_code] answers true on a ZIP code followed by one
    newline, a text that is neither [5 digits] nor [5 digits - 4 digits]:
    the [$] of its pattern also matches before a final newline. *)
Theorem validate_zip_code_trailing_newline (me : ZipCodeMapper) :
  validate_zip_code me ("12345" +:+ String newline "") = true
  ∧ ¬ zip_format ("12345" +:+ String newline "").
Proof.
  split.
  - unfold validate_zip_code. apply orb_true_iff. right. reflexivity.
  - intros [[Hl _]|(a & b & Heq & [Hla _] & [Hlb _])];
      [by vm_compute in Hl|].
    apply (f_equal String.length) in Heq.
    rewrite !length_append in Heq. cbn [String.length] in Heq.
    rewrite Hla, Hlb in Heq. by vm_compute in Heq.
Qed.

(** The five digits of a ZIP+4 are a whole-word ZIP code of the text, and
    the first pass does not report them beside the ZIP+4. *)
Lemma findall_zip_skips_base_of_plus4 :
  whole_word_at None "12345-6789" "12345"
  ∧ findall_zip "12345-6789" = ["12345-6789"]
  ∧ "12345" ∉ extract_zip_list (Text "12345-6789").
Proof.
  split; [|split].
  - exists "-6789". split; [reflexivity|]. split; [|by split].
    left. by split.
  - reflexivity.
  - change (extract_zip_list (Text "12345-6789")) with ["12345-6789"].
    by intros [=]%list_elem_of_singleton.
Qed.

(** C2 (amended).  The candidates of a text.  The first pass reports the
    whole-word ZIP codes met by a left-to-right scan, in order, and nothing
    else can be the outcome of that scan.  Every whole-word ZIP code of the
    text is reported, but for the five digits of a reported ZIP+4; and what
    is reported stands in the text as a whole word.  The first pass reports
    nothing exactly when no whole-word ZIP code stands anywhere in the
    text.  [re.split] gives the tokens between the runs of separators; the
    candidates are the matches of the first pass when there are some, else
    the tokens that are digit strings.  The call then takes the candidates
    one after the other, in that order: its grouping is the left fold of
    the step of one candidate over them, and its log grows by their
    rejections in the same order, then by the summary line. *)
Theorem extract_zip_list_two_passes (s : string) :
  scan None s (findall_zip s)
  ∧ (∀ ms, scan None s ms → ms = findall_zip s)
  ∧ (∀ l m r, s = l +:+ m +:+ r → whole_word_at (last l) (m +:+ r) m →
       m ∈ findall_zip s
       ∨ ∃ x r', r = String hyphen (x +:+ r') ∧ plus4_digits x
                 ∧ m +:+ String hyphen x ∈ findall_zip s)
  ∧ (∀ m, m ∈ findall_zip s →
       ∃ l r, s = l +:+ m +:+ r ∧ whole_word_at (last l) (m +:+ r) m)
  ∧ (findall_zip s = [] ↔
     ∀ l m r, s = l +:+ m +:+ r → ¬ whole_word_at (last l) (m +:+ r) m)
  ∧ tokens s (split_seps s)
  ∧ extract_zip_list (Text s)
    = match findall_zip s with
      | [] => filter (λ z, isdigit z = true) (split_seps s)
      | zip_list => zip_list
      end
  ∧ ∀ w, process_zip_codes (Text s) w
         = (Ok (foldl (group_step (self w)) [] (extract_zip_list (Text s))),
            logged w
              ((z ← extract_zip_list (Text s); rejection (self w) z)
               ++ summary (rejected (self w) (extract_zip_list (Text s))))).
Proof.
  assert (∀ l : string, from_option Some None (last l) = last l) as Hprev
    by (intros l; by destruct (last l)).
  pose proof (findall_from_scan s None) as Hscan.
  fold (findall_zip s) in Hscan.
  split; [exact Hscan|].
  split; [apply scan_findall_from|].
  split.
  { intros l m r Hs Hw. rewrite <- Hprev in Hw.
    exact (scan_complete _ _ _ Hscan l m r Hs Hw). }
  split.
  { intros m Hin.
    destruct (scan_occurs _ _ _ m Hscan Hin) as (l & r & Hs & Hw).
    rewrite Hprev in Hw. by exists l, r. }
  split.
  { split.
    - intros Hnil l m r Hs. rewrite Hnil in Hscan.
      pose proof (scan_nil _ _ Hscan l m r Hs) as Hno.
      by rewrite Hprev in Hno.
    - intros Hno. destruct (findall_zip s) as [|m ms] eqn:Hf; [done|].
      destruct (scan_occurs _ _ _ m Hscan) as (l & r & Hs & Hw);
        [apply list_elem_of_here|].
      rewrite Hprev in Hw. by destruct (Hno l m r Hs). }
  split; [apply split_seps_tokens|].
  split; [apply extract_zip_list_text|].
  intros w. apply process_zip_codes_run.
Qed.

(** C3.  For every string, [get_state_for_zip] looks up the part of its
    argument before the first hyphen, and nothing else: it gives the state
    of that part when the part is a key of the database and nothing
    otherwise.  So a ZIP+4 variant of a base ZIP of the database gets the
    state of the base, the mapped one. *)
Theorem get_state_for_zip_strips_suffix
    (me : ZipCodeMapper) (s b x state : string) :
  (∃ rest, s = before_first hyphen s +:+ rest
           ∧ contains hyphen (before_first hyphen s) = false
           ∧ (rest = "" ∨ head rest = Some hyphen)
           ∧ get_state_for_zip me s
             = zip_to_state_map me !! before_first hyphen s)
  ∧ (get_state_for_zip me s = None ↔
     zip_to_state_map me !! before_first hyphen s = None)
  ∧ (is_zip_base b = true →
     zip_to_state_map me !! b = Some state →
     get_state_for_zip me (b +:+ String hyphen x) = get_state_for_zip me b
     ∧ get_state_for_zip me b = Some state).
Proof.
  split; [|split].
  - destruct (before_first_split hyphen s) as (rest & Hs & Hc & Hr).
    by exists rest.
  - done.
  - intros [_ Hb]%andb_true_iff Hst. split.
    + unfold get_state_for_zip. by rewrite before_first_app_sep.
    + unfold get_state_for_zip.
      by rewrite before_first_sep_free by by apply all_decimal_no_hyphen.
Qed.

Lemma get_state_for_zip_strips_suffix_witness :
  get_state_for_zip anchorage "99501-1234"
  = get_state_for_zip anchorage "99501"
  ∧ get_state_for_zip anchorage "99501" = Some "AK".
Proof.
  apply (get_state_for_zip_strips_suffix
           anchorage "99501-1234" "99501" "1234" "AK");
    reflexivity.
Defined.

Lemma resolve_ext (me me' : ZipCodeMapper) z :
  zip_to_state_map me = zip_to_state_map me' →
  resolve me z = resolve me' z.
Proof.
  intros Hdb. unfold resolve, validate_zip_code, get_state_for_zip.
  by rewrite Hdb.
Qed.

Lemma grouping_ext (me me' : ZipCodeMapper) inp :
  zip_to_state_map me = zip_to_state_map me' →
  grouping me inp = grouping me' inp.
Proof.
  intros Hdb. unfold grouping.
  generalize (@nil (string * list string)).
  induction (extract_zip_list inp) as [|z zs IH]; intros d; [done|].
  simpl. unfold group_step at 2 4. rewrite (resolve_ext me me' z Hdb).
  apply IH.
Qed.

(** C5.  A call returns a grouping and raises nothing, and the world
    after it is the world before it with records added to the log.  A
    candidate that fails validation, or for which no state is found, is in
    no sequence of the grouping and has its warning in the log; when every
    candidate is such, the grouping is empty; so it is for the empty text
    and for a text without a ZIP-like token. *)
Theorem process_zip_codes_skips_failures (inp : zip_input) (w : World) :
  ∃ res,
    process_zip_codes inp w
    = (Ok res, logged w (process_log (self w) inp))
    ∧ (∀ z, z ∈ extract_zip_list inp →
            validate_zip_code (self w) z = false
            ∨ get_state_for_zip (self w) z = None
            ∨ get_state_for_zip (self w) z = Some "" →
            (∀ state zs, (state, zs) ∈ res → z ∉ zs)
            ∧ ∃ msg, (WARNING, msg +:+ z) ∈ process_log (self w) inp)
    ∧ ((∀ z, z ∈ extract_zip_list inp →
             validate_zip_code (self w) z = false
             ∨ get_state_for_zip (self w) z = None
             ∨ get_state_for_zip (self w) z = Some "") →
       res = [])
    ∧ process_zip_codes (Text "") w = (Ok [], w)
    ∧ process_zip_codes (Text "not a zip at all") w = (Ok [], w).
Proof.
  exists (grouping (self w) inp).
  split; [apply process_zip_codes_run|]. split; [|split; [|split]].
  - intros z Hz Hrej%resolve_none. split.
    + intros state zs [-> _]%grouping_elem [_ Hsome]%filed_under_elem.
      congruence.
    + destruct (rejection_none _ _ Hrej) as (msg & Hmsg). exists msg.
      unfold process_log. apply elem_of_app. left.
      apply list_elem_of_bind. exists z. split; [|done].
      rewrite Hmsg. apply list_elem_of_here.
  - intros Hall. apply grouping_all_rejected.
    intros z Hz. apply resolve_none. by apply Hall.
  - rewrite process_zip_codes_run. by rewrite logged_nil.
  - rewrite process_zip_codes_run.
    assert (extract_zip_list (Text "not a zip at all") = []) as Hnone
      by (by vm_compute).
    unfold grouping, process_log. rewrite Hnone. by rewrite logged_nil.
Qed.

Lemma process_zip_codes_skips_failures_witness :
  ∃ res,
    process_zip_codes (Items ["99501"; "1234"; "00000"])
      (mkWorld anchorage [] [])
    = (Ok res, logged (mkWorld anchorage [] [])
                 (process_log anchorage (Items ["99501"; "1234"; "00000"])))
    ∧ (∀ state zs, (state, zs) ∈ res → "1234" ∉ zs)
    ∧ ∃ msg, (WARNING, msg +:+ "1234")
             ∈ process_log anchorage (Items ["99501"; "1234"; "00000"]).
Proof.
  destruct (process_zip_codes_skips_failures
              (Items ["99501"; "1234"; "00000"]) (mkWorld anchorage [] []))
    as (res & Hrun & Hskip & _).
  exists res. split; [exact Hrun|].
  apply (Hskip "1234").
  - apply list_elem_of_further, list_elem_of_here.
  - left. reflexivity.
Defined.

(** C6.  In the grouping a call returns, the sequence of a state lists
    the candidates filed under it in the order of the input, duplicates
    kept; a state has a sequence only when a candidate is filed under it;
    the keys stand in the order in which their states were first met, each
    once.  A list of two occurrences of [99501] gives both, in the
    sequence of the state the database has for it. *)
Theorem process_zip_codes_keeps_order (inp : zip_input) (w : World) :
  ∃ res w',
    process_zip_codes inp w = (Ok res, w')
    ∧ (∀ state,
         dict_get state res
         = match filed_under (self w) state (extract_zip_list inp) with
           | [] => None
           | zs => Some zs
           end)
    ∧ res.*1 = first_occurrences
                 (omap (resolve (self w)) (extract_zip_list inp))
    ∧ NoDup res.*1
    ∧ ∀ c state,
        zip_to_state_map (self w) !! "99501" = Some (String c state) →
        process_zip_codes (Items ["99501"; "99501"]) w
        = (Ok [(String c state, ["99501"; "99501"])], w).
Proof.
  exists (grouping (self w) inp), (logged w (process_log (self w) inp)).
  split; [apply process_zip_codes_run|].
  split; [intros state; apply grouping_get|].
  split; [apply grouping_keys|]. split; [apply grouping_NoDup|].
  intros c state Hdb. rewrite process_zip_codes_run.
  assert (resolve (self w) "99501" = Some (String c state)) as Hr.
  { unfold resolve.
    assert (validate_zip_code (self w) "99501" = true) as ->
      by apply validate_zip_code_examples.
    unfold get_state_for_zip.
    change (before_first hyphen "99501") with "99501". by rewrite Hdb. }
  unfold grouping, process_log, rejected, rejection, group_step.
  cbn [extract_zip_list foldl mbind list_bind].
  rewrite !filter_cons_False, filter_nil by (rewrite Hr; done).
  assert (validate_zip_code (self w) "99501" = true) as ->
    by apply validate_zip_code_examples.
  rewrite Hr. cbn [app summary]. rewrite logged_nil.
  unfold dict_ensure.
  repeat first [rewrite decide_True by done
               |progress cbn [dict_get dict_append app]].
  done.
Qed.

Lemma process_zip_codes_keeps_order_witness :
  process_zip_codes (Items ["99501"; "99501"]) (mkWorld anchorage [] [])
  = (Ok [("AK", ["99501"; "99501"])], mkWorld anchorage [] []).
Proof.
  destruct (process_zip_codes_keeps_order (Items [])
              (mkWorld anchorage [] []))
    as (res & w' & _ & _ & _ & _ & Hex).
  apply (Hex "A"%char "K"). reflexivity.
Defined.

(** C7.  [states_to_urls] returns a table and raises nothing.  The table
    has, for every code of the input set that is a key of [state_names],
    the URL built on the pattern with the name of the state, and that
    name; it has nothing for any other code.  [state_names] has 51 keys,
    each of two uppercase letters, and its names are lowercase and
    hyphenated.  The set of WA alone gives the Washington entry, the set
    of ZZ alone the empty table and a warning. *)
Theorem states_to_urls_known_codes
    (states : gset string) (base_url : string) (w : World) :
  ∃ urls records,
    states_to_urls states base_url w = (Ok urls, logged w records)
    ∧ (∀ code,
         urls !! code
         = if decide (code ∈ states)
           then name ← state_names !! code;
                Some (base_url +:+ "/states/" +:+ name +:+ "/" +:+ name
                      +:+ "-dispensaries/", name)
           else None)
    ∧ size state_names = 51%nat
    ∧ (∀ code name,
         state_names !! code = Some name →
         is_state_abbr code = true ∧ is_canonical_name name = true)
    ∧ states_to_urls {["WA"]} default_base_url w
      = (Ok {["WA" :=
                ("https://potadvisor.com/states/washington/washington-dispensaries/",
                 "washington")]}, w)
    ∧ states_to_urls {["ZZ"]} default_base_url w
      = (Ok ∅,
         logged w [(WARNING, "No URL mapping available for state: ZZ")]).
Proof.
  exists (urls_of base_url (elements states) ∅),
         (state ← elements states; unknown_state state).
  split; [apply urls_loop_run|]. split; [|split; [|split; [|split]]].
  - intros code. rewrite urls_of_lookup, lookup_empty.
    destruct (decide (code ∈ states)) as [Hin|Hin].
    + rewrite decide_True by by apply elem_of_elements.
      unfold url_entry, state_url.
      by destruct (state_names !! code).
    + rewrite decide_False; [done|]. by rewrite elem_of_elements.
  - by vm_compute.
  - apply state_names_canonical.
  - unfold states_to_urls. rewrite elements_singleton, urls_loop_run.
    assert (urls_of default_base_url ["WA"] ∅
            = {["WA" :=
                  ("https://potadvisor.com/states/washington/washington-dispensaries/",
                   "washington")]}) as -> by (by vm_compute).
    assert ((state ← ["WA"]; unknown_state state) = []) as ->
      by (by vm_compute).
    by rewrite logged_nil.
  - unfold states_to_urls. rewrite elements_singleton, urls_loop_run.
    assert (urls_of default_base_url ["ZZ"] ∅ = ∅) as -> by (by vm_compute).
    assert ((state ← ["ZZ"]; unknown_state state)
            = [(WARNING, "No URL mapping available for state: ZZ")]) as ->
      by (by vm_compute).
    done.
Qed.

(** C8.  A call leaves the mapper as it found it, and its grouping is the
    one any call with the same argument returns over the same database:
    the second of two calls in a row, or a call from another world. *)
Theorem process_zip_codes_deterministic (inp : zip_input) (w : World) :
  ∃ res w1,
    process_zip_codes inp w = (Ok res, w1)
    ∧ self w1 = self w
    ∧ (∃ w2, process_zip_codes inp w1 = (Ok res, w2) ∧ self w2 = self w)
    ∧ ∀ w', db_of w' = db_of w →
            ∃ w'', process_zip_codes inp w' = (Ok res, w'')
                   ∧ self w'' = self w'.
Proof.
  exists (grouping (self w) inp), (logged w (process_log (self w) inp)).
  split; [apply process_zip_codes_run|]. split; [done|]. split.
  - exists (logged (logged w (process_log (self w) inp))
              (process_log (self w) inp)).
    by rewrite process_zip_codes_run.
  - intros w' Hdb. exists (logged w' (process_log (self w') inp)).
    rewrite process_zip_codes_run. split; [|done].
    by rewrite (grouping_ext (self w') (self w) inp Hdb).
Qed.

Lemma process_zip_codes_deterministic_witness :
  ∃ res w'',
    process_zip_codes (Text "99501, 98101")
      (mkWorld anchorage [(INFO, "earlier")] ["/tmp"]) = (Ok res, w'')
    ∧ (process_zip_codes (Text "99501, 98101")
         (mkWorld anchorage [] [])).1 = Ok res.
Proof.
  destruct (process_zip_codes_deterministic (Text "99501, 98101")
              (mkWorld anchorage [] []))
    as (res & w1 & Hrun & _ & _ & Hany).
  destruct (Hany (mkWorld anchorage [(INFO, "earlier")] ["/tmp"]) eq_refl)
    as (w'' & Hrun' & _).
  exists res, w''. split; [exact Hrun'|]. by rewrite Hrun.
Defined.

(** C10.  Every sequence of the grouping a call returns is non-empty, its
    key is a value of the database, and each of its ZIP codes validates
    and has that key as its state. *)
Theorem process_zip_codes_sound (inp : zip_input) (w : World) :
  ∃ res w',
    process_zip_codes inp w = (Ok res, w')
    ∧ ∀ state zs,
        (state, zs) ∈ res →
        zs ≠ []
        ∧ (∃ k, zip_to_state_map (self w) !! k = Some state)
        ∧ ∀ z, z ∈ zs →
               validate_zip_code (self w) z = true
               ∧ get_state_for_zip (self w) z = Some state.
Proof.
  exists (grouping (self w) inp), (logged w (process_log (self w) inp)).
  split; [apply process_zip_codes_run|].
  intros state zs [-> Hne]%grouping_elem.
  assert (∀ z, z ∈ filed_under (self w) state (extract_zip_list inp) →
               validate_zip_code (self w) z = true
               ∧ get_state_for_zip (self w) z = Some state) as Hall.
  { intros z [_ (Hv & Hs & _)%resolve_some]%filed_under_elem. done. }
  split; [done|]. split; [|done].
  destruct (filed_under (self w) state (extract_zip_list inp))
    as [|z zs] eqn:Hf; [done|].
  destruct (Hall z) as [_ Hs]; [apply list_elem_of_here|].
  unfold get_state_for_zip in Hs. eauto.
Qed.

Lemma process_zip_codes_sound_witness :
  ∃ res w',
    process_zip_codes (Items ["99501"; "99501-0001"])
      (mkWorld anchorage [] []) = (Ok res, w')
    ∧ validate_zip_code anchorage "99501-0001" = true
    ∧ get_state_for_zip anchorage "99501-0001" = Some "AK".
Proof.
  destruct (process_zip_codes_sound (Items ["99501"; "99501-0001"])
              (mkWorld anchorage [] []))
    as (res & w' & Hrun & Hsound).
  exists res, w'. split; [exact Hrun|].
  assert (("AK", ["99501"; "99501-0001"]) ∈ res) as Hin.
  { vm_compute in Hrun. injection Hrun as <- _. apply list_elem_of_here. }
  destruct (Hsound _ _ Hin) as (_ & _ & Hall).
  apply Hall. apply list_elem_of_further, list_elem_of_here.
Defined.



(** The claim of a database of ZIP bases and state abbreviations fails on
    a file whose row carries other text: the row is stored as it is. *)
Lemma rows_are_stored_unchecked :
  built_db fs_free_text_rows (Some "zips.csv") !! "abc" = Some "Alaska"
  ∧ ¬ well_formed_db (built_db fs_free_text_rows (Some "zips.csv")).
Proof.
  assert (built_db fs_free_text_rows (Some "zips.csv") !! "abc"
          = Some "Alaska") as Hrow.
  { rewrite built_db_loaded. by vm_compute. }
  split; [done|]. intros Hwf. by destruct (Hwf _ _ Hrow) as [? _].
Qed.

(** C9 (amended).  The database a constructor leaves.  Its keys and
    values are non-empty strings.  Every key is a string of five digits and
    every value one of two uppercase letters whenever the rows the loader
    reads are so; that is always the case when no file is read, so that the
    range table alone populates the database.  The rows of a file read to
    its end are stored as they are found: a key has the state of the last
    row that names it, and no other key is stored.  Whatever the source, an
    entry of the database comes from a row read or from the range table,
    and a key has one state at most. *)
Theorem built_db_invariant (fs : FileSystem) (path : option string) :
  (∀ k v, built_db fs path !! k = Some v → k ≠ "" ∧ v ≠ "")
  ∧ (rows_well_formed fs path → well_formed_db (built_db fs path))
  ∧ (selected_source fs path = None → rows_well_formed fs path)
  ∧ (∀ p, selected_source fs path = Some p →
          csv_error (fs_read fs p) = None →
          ∀ k, built_db fs path !! k
               = last_value k (omap row_entry (csv_rows (fs_read fs p))))
  ∧ (∀ k v, built_db fs path !! k = Some v →
            (k, v) ∈ source_entries fs path ∨ (k, v) ∈ initial_entries)
  ∧ (∀ k v1 v2,
       built_db fs path !! k = Some v1 → built_db fs path !! k = Some v2 →
       v1 = v2).
Proof.
  rewrite built_db_loaded.
  assert (∀ k v, loaded_table fs path !! k = Some v →
            (k, v) ∈ source_entries fs path ∨ (k, v) ∈ initial_entries)
    as Hfrom.
  { intros k v. unfold loaded_table, source_entries, rows_table.
    destruct (selected_source fs path) as [p|].
    - destruct (csv_error (fs_read fs p)).
      + intros [Hin|Hin]%fill_elem; [by right|].
        apply fill_elem in Hin as [Hin|Hin]; [by left|].
        by rewrite lookup_empty in Hin.
      + intros [Hin|Hin]%fill_elem; [by left|].
        by rewrite lookup_empty in Hin.
    - intros Hin%initial_table_elem. by right. }
  split; [apply loaded_table_nonempty|].
  split.
  { intros Hrows k v [Hin|Hin%list_elem_of_In]%Hfrom; [by apply Hrows|].
    pose proof initial_entries_well_formed as Hall.
    rewrite forallb_forall in Hall. specialize (Hall _ Hin).
    by apply andb_true_iff in Hall. }
  split.
  { intros Hnone k v. unfold source_entries. rewrite Hnone.
    by intros ?%elem_of_nil. }
  split.
  { intros p Hp Herr k. unfold loaded_table, rows_table.
    rewrite Hp, Herr, fill_lookup, lookup_empty.
    by destruct (last_value k _). }
  split; [exact Hfrom|].
  intros k v1 v2 H1 H2. congruence.
Qed.

Lemma built_db_invariant_witness :
  well_formed_db (built_db fs_unreadable_explicit None).
Proof.
  apply (built_db_invariant fs_unreadable_explicit None).
  intros k v Hin.
  change (source_entries fs_unreadable_explicit None)
    with [("10001", "NY")] in Hin.
  apply list_elem_of_singleton in Hin. by injection Hin as -> ->.
Defined.

End Claims.

(** * Further properties of the mapper *)

Section Bases.
Import PyStr Re.

Lemma digit_val_range c : is_decimal c = true → 0 ≤ digit_val c ≤ 9.
Proof.
  unfold is_decimal, in_range, digit_val.
  intros [H1%N.leb_le H2%N.leb_le]%andb_true_iff. lia.
Qed.

Lemma digit_val_zero c : is_decimal c = true → digit_val c = 0 → c = "0"%char.
Proof.
  unfold digit_val. intros _ H.
  rewrite <- (ascii_N_embedding c). unfold ord in H.
  by replace (N_of_ascii c) with 48%N by lia.
Qed.

(** The value of a ZIP base is below 100000, and is 0 for [00000] only. *)
Lemma zip5_value (b : string) :
  zip5 b →
  0 ≤ decimal_value 0 b < 100000 ∧ (decimal_value 0 b = 0 ↔ b = "00000").
Proof.
  intros [Hl Hd].
  destruct b as [|c1 [|c2 [|c3 [|c4 [|c5 [|c6 b]]]]]]; try done.
  cbn [all] in Hd. rewrite !andb_true_iff in Hd.
  destruct Hd as (H1 & H2 & H3 & H4 & H5 & _).
  pose proof (digit_val_range _ H1). pose proof (digit_val_range _ H2).
  pose proof (digit_val_range _ H3). pose proof (digit_val_range _ H4).
  pose proof (digit_val_range _ H5).
  cbn [decimal_value]. split; [lia|]. split.
  - intros Hz.
    rewrite (digit_val_zero c1), (digit_val_zero c2), (digit_val_zero c3),
      (digit_val_zero c4), (digit_val_zero c5) by (done || lia).
    done.
  - intros [= -> -> -> -> ->]. done.
Qed.

(** On a text in ZIP format the lookup and the validation read the same
    base: the first five characters. *)
Lemma before_first_zip_format (z : string) :
  zip_format z → before_first hyphen z = take 5 z.
Proof.
  intros [[Hl Hd]|(a & b & -> & [Hl Hd] & _)].
  - rewrite before_first_sep_free by by apply all_decimal_no_hyphen.
    rewrite take_all; [done|lia].
  - rewrite before_first_app_sep.
    rewrite before_first_sep_free by by apply all_decimal_no_hyphen.
    rewrite <- Hl. by rewrite take_app_length.
Qed.

Lemma resolve_zip_format (me : ZipCodeMapper) (z : string) c state :
  zip_format z →
  zip_to_state_map me !! take 5 z = Some (String c state) →
  resolve me z = Some (String c state).
Proof.
  intros Hz Hdb. unfold resolve.
  assert (validate_zip_code me z = true) as ->.
  { apply validate_zip_code_on_format; [done|]. left. by rewrite Hdb. }
  unfold get_state_for_zip. by rewrite before_first_zip_format, Hdb.
Qed.

(** X1.  On a text in ZIP format validation fails in one case only: the
    base is [00000] and the database has no such key. *)
Theorem validate_zip_code_rejects_zero_base_only
    (me : ZipCodeMapper) (s : string) :
  zip_format s →
  validate_zip_code me s = false ↔
  take 5 s = "00000" ∧ zip_to_state_map me !! "00000" = None.
Proof.
  intros Hs.
  pose proof (zip5_value _ (zip_format_take5 _ Hs)) as [Hrange Hzero].
  pose proof (validate_zip_code_on_format me s Hs) as Hv.
  destruct (validate_zip_code me s) eqn:Hval.
  - split; [done|]. intros [Hb Hdb].
    destruct Hv as [Hv _]. destruct (Hv eq_refl) as [[st Hst]|Hin].
    + rewrite Hb in Hst. congruence.
    + apply Hzero in Hb. lia.
  - split; [|done]. intros _. destruct Hv as [_ Hv].
    destruct (decide (decimal_value 0 (take 5 s) = 0)) as [H0|H0].
    + apply Hzero in H0. split; [done|].
      destruct (zip_to_state_map me !! "00000") as [st|] eqn:Hst; [|done].
      assert (false = true) as Hf; [|done].
      apply Hv. left. rewrite H0. eauto.
    + assert (false = true) as Hf; [|done]. apply Hv. right. lia.
Qed.

Lemma validate_zip_code_rejects_zero_base_only_witness :
  validate_zip_code anchorage "00000-1234" = false.
Proof.
  apply (validate_zip_code_rejects_zero_base_only anchorage "00000-1234").
  - right. exists "00000", "1234". repeat split; reflexivity.
  - split; reflexivity.
Defined.

End Bases.

Section Candidates.
Import PyStr Re.

(** X2.  A candidate in ZIP format whose base is a key of the database,
    with a state that is not the empty string, is in the sequence of that
    state in the grouping the call returns. *)
Theorem process_zip_codes_files_known_bases
    (inp : zip_input) (w : World) (z : string) c state :
  z ∈ extract_zip_list inp →
  zip_format z →
  zip_to_state_map (self w) !! take 5 z = Some (String c state) →
  ∃ res w' zs,
    process_zip_codes inp w = (Ok res, w')
    ∧ dict_get (String c state) res = Some zs
    ∧ z ∈ zs.
Proof.
  intros Hin Hz Hdb.
  pose proof (resolve_zip_format _ _ _ _ Hz Hdb) as Hr.
  assert (z ∈ filed_under (self w) (String c state) (extract_zip_list inp))
    as Hfiled by by apply filed_under_elem.
  exists (grouping (self w) inp), (logged w (process_log (self w) inp)),
    (filed_under (self w) (String c state) (extract_zip_list inp)).
  split; [apply process_zip_codes_run|]. split; [|done].
  rewrite grouping_get.
  destruct (filed_under (self w) (String c state) (extract_zip_list inp));
    [by apply elem_of_nil in Hfiled|done].
Qed.

Lemma process_zip_codes_files_known_bases_witness :
  ∃ res w' zs,
    process_zip_codes (Text "ship to 99501-1234") (mkWorld anchorage [] [])
    = (Ok res, w')
    ∧ dict_get "AK" res = Some zs
    ∧ "99501-1234" ∈ zs.
Proof.
  apply (process_zip_codes_files_known_bases
           (Text "ship to 99501-1234") (mkWorld anchorage [] [])
           "99501-1234" "A"%char "K").
  - vm_compute. apply list_elem_of_here.
  - right. exists "99501", "1234". repeat split; reflexivity.
  - reflexivity.
Defined.

Lemma sum_lengths_dict_append st z (d : groups) v :
  dict_get st d = Some v →
  sum_list (length <$> (dict_append st z d).*2)
  = S (sum_list (length <$> d.*2)).
Proof.
  induction d as [|[k' v'] d IH]; [done|]. cbn [dict_get dict_append].
  destruct (decide (k' = st)) as [->|Hne].
  - intros _. rewrite !fmap_cons. cbn [snd sum_list sum_list_with].
    rewrite length_app. simpl. lia.
  - intros Hd. rewrite !fmap_cons. cbn [snd sum_list sum_list_with].
    rewrite (IH Hd). lia.
Qed.

Lemma sum_lengths_dict_ensure st (d : groups) :
  sum_list (length <$> (dict_ensure st d).*2) = sum_list (length <$> d.*2)
  ∧ is_Some (dict_get st (dict_ensure st d)).
Proof.
  unfold dict_ensure. destruct (dict_get st d) as [v|] eqn:Hst.
  - rewrite Hst. eauto.
  - split.
    + rewrite !fmap_app, sum_list_with_app. simpl. lia.
    + rewrite dict_get_app, Hst. simpl. rewrite decide_True by done. eauto.
Qed.

Lemma sum_lengths_foldl (me : ZipCodeMapper) zs (d : groups) :
  (sum_list (length <$> (foldl (group_step me) d zs).*2)
   + length (rejected me zs)
   = sum_list (length <$> d.*2) + length zs)%nat.
Proof.
  revert d. induction zs as [|z zs IH]; intros d; [simpl; lia|].
  cbn [foldl length]. specialize (IH (group_step me d z)).
  unfold rejected in *.
  assert (sum_list (length <$> (group_step me d z).*2)
          = (sum_list (length <$> d.*2)
             + match resolve me z with Some _ => 1 | None => 0 end)%nat)
    as Hstep.
  { unfold group_step. destruct (resolve me z) as [st|]; [|lia].
    destruct (sum_lengths_dict_ensure st d) as [Hsum [v Hv]].
    rewrite (sum_lengths_dict_append _ _ _ _ Hv), Hsum. lia. }
  rewrite Hstep in IH.
  destruct (resolve me z) as [st|] eqn:Hr.
  - rewrite filter_cons_False by (rewrite Hr; done). lia.
  - rewrite filter_cons_True by done. cbn [length]. lia.
Qed.

(** X3.  Every candidate is accounted for once: the lengths of the
    sequences of the grouping and the number of candidates left unfiled add
    up to the number of candidates. *)
Theorem process_zip_codes_accounts_for_candidates
    (inp : zip_input) (w : World) :
  ∃ res w',
    process_zip_codes inp w = (Ok res, w')
    ∧ (sum_list (length <$> res.*2)
       + length (rejected (self w) (extract_zip_list inp))
       = length (extract_zip_list inp))%nat.
Proof.
  exists (grouping (self w) inp), (logged w (process_log (self w) inp)).
  split; [apply process_zip_codes_run|].
  unfold grouping. by rewrite sum_lengths_foldl.
Qed.

Lemma findall_zip_format (s z : string) :
  z ∈ findall_zip s →
  zip_format z ∧ ∃ l r, s = l +:+ z +:+ r.
Proof.
  intros Hin.
  destruct (scan_occurs _ _ _ z (findall_from_scan s None) Hin)
    as (l & r & Hs & _ & _ & Hz & _).
  eauto.
Qed.

(** X4.  The candidates the first pass takes from a text are in ZIP format
    and stand in the text, and the lookup of one reads its first five
    characters. *)
Theorem first_pass_candidates_are_zip_codes
    (me : ZipCodeMapper) (s z : string) :
  findall_zip s ≠ [] →
  z ∈ extract_zip_list (Text s) →
  zip_format z
  ∧ (∃ l r, s = l +:+ z +:+ r)
  ∧ get_state_for_zip me z = zip_to_state_map me !! take 5 z.
Proof.
  intros Hne Hin. rewrite extract_zip_list_text in Hin.
  destruct (findall_zip s) as [|m ms] eqn:Hf; [done|].
  rewrite <- Hf in Hin. apply findall_zip_format in Hin as [Hz Hocc].
  split; [done|]. split; [done|].
  unfold get_state_for_zip. by rewrite before_first_zip_format.
Qed.

Lemma first_pass_candidates_are_zip_codes_witness :
  zip_format "98101-1234"
  ∧ (∃ l r, "99501, 98101-1234" = l +:+ "98101-1234" +:+ r)
  ∧ get_state_for_zip anchorage "98101-1234"
    = zip_to_state_map anchorage !! take 5 "98101-1234".
Proof.
  apply (first_pass_candidates_are_zip_codes anchorage
           "99501, 98101-1234" "98101-1234").
  - by vm_compute.
  - vm_compute. apply list_elem_of_further, list_elem_of_here.
Defined.

Lemma sep_not_word c : is_sep c = true → is_word c = false.
Proof. destruct c as [[] [] [] [] [] [] [] []]; by vm_compute. Qed.

Lemma last_all p (s : string) c :
  all p s = true → last s = Some c → p c = true.
Proof.
  induction s as [|d s IH]; [done|]. rewrite last_cons.
  simpl. intros [Hd Hs]%andb_true_iff [= <-].
  destruct (last s) as [e|] eqn:He; [|done]. by apply IH.
Qed.

Lemma head_all p (s : string) c :
  all p s = true → head s = Some c → p c = true.
Proof. destruct s; [done|]. simpl. by intros [? _]%andb_true_iff [= <-]. Qed.

(** A token stands in the text between separators or the ends. *)
Lemma tokens_occurs (s : string) ts t :
  tokens s ts → t ∈ ts →
  ∃ l r, s = l +:+ t +:+ r
         ∧ from_option is_sep true (last l) = true
         ∧ from_option is_sep true (head r) = true.
Proof.
  induction 1 as [t0 Hfree|t0 sep s ts Hfree [Hne Hsep] Hhd _ IH].
  - intros ->%list_elem_of_singleton. exists "", "".
    by rewrite append_nil_r.
  - intros [->|Hin]%elem_of_cons.
    + exists "", (sep +:+ s). split; [done|]. split; [done|].
      destruct sep as [|c sep]; [done|]. simpl in *.
      by apply andb_true_iff in Hsep as [? _].
    + destruct (IH Hin) as (l & r & -> & Hl & Hr).
      exists (t0 +:+ sep +:+ l), r. rewrite !append_assoc.
      split; [done|]. split; [|done].
      rewrite <- append_assoc.
      destruct l as [|x l].
      * rewrite append_nil_r.
        destruct sep as [|c sep]; [done|]. rewrite last_app_cons.
        destruct (last (String c sep)) as [e|] eqn:He; [|done].
        apply (last_all _ _ _ Hsep He).
      * by rewrite last_app_cons.
Qed.

Lemma isdigit_no_hyphen (t : string) :
  isdigit t = true → contains hyphen t = false.
Proof.
  unfold isdigit. intros [_ Hall]%andb_true_iff.
  induction t as [|c t IH]; [done|]. simpl in *.
  apply andb_true_iff in Hall as [Hc Ht]. rewrite (IH Ht).
  rewrite bool_decide_eq_false_2; [done|]. by intros ->.
Qed.

Lemma contains_append sep (a b : string) :
  contains sep (a +:+ b) = contains sep a || contains sep b.
Proof.
  induction a as [|c a IH]; [done|]. simpl. by rewrite IH, orb_assoc.
Qed.

Lemma sep_free_no_newline (t u : string) :
  sep_free t → t ≠ u +:+ String newline "".
Proof.
  intros Hfree ->. unfold sep_free in Hfree.
  induction u as [|c u IH]; simpl in Hfree; [done|].
  apply andb_true_iff in Hfree as [_ Hu]. by apply IH.
Qed.

(** A token that validates is five digits. *)
Lemma valid_token_zip5 (me : ZipCodeMapper) (t : string) :
  sep_free t → isdigit t = true → validate_zip_code me t = true → zip5 t.
Proof.
  intros Hfree Hdig (u & [->|Hnl] & Hu & _)%validate_zip_code_spec.
  - destruct Hu as [Hz|(a & b & -> & _)]; [done|].
    apply isdigit_no_hyphen in Hdig.
    rewrite contains_append in Hdig. cbn [contains] in Hdig.
    rewrite bool_decide_eq_true_2 in Hdig by done.
    by rewrite orb_true_r in Hdig.
  - by destruct (sep_free_no_newline t u Hfree).
Qed.

Lemma zip5_head_last (t : string) :
  zip5 t →
  is_word_opt (head t) = true ∧ is_word_opt (last t) = true.
Proof.
  intros [Hl Hd]. destruct t as [|c t]; [done|]. split.
  - simpl in *. apply andb_true_iff in Hd as [Hc _].
    unfold is_word, is_numeric, is_digit. rewrite Hc.
    by rewrite !orb_true_r.
  - destruct (last (String c t)) as [e|] eqn:He.
    + pose proof (last_all _ _ _ Hd He) as Hc. simpl.
      unfold is_word, is_numeric, is_digit. rewrite Hc.
      by rewrite !orb_true_r.
    + by rewrite last_cons in He.
Qed.

Lemma sep_boundary (o : option ascii) :
  from_option is_sep true o = true → is_word_opt o = false.
Proof. destruct o as [c|]; [apply sep_not_word|done]. Qed.

(** X5.  When the first pass finds nothing in a text, the call returns the
    empty grouping: no token the fallback pass keeps passes validation. *)
Theorem process_zip_codes_fallback_finds_nothing (s : string) (w : World) :
  findall_zip s = [] →
  process_zip_codes (Text s) w
  = (Ok [], logged w (process_log (self w) (Text s)))
  ∧ ∀ z, z ∈ extract_zip_list (Text s) →
         validate_zip_code (self w) z = false.
Proof.
  intros Hnil.
  assert (∀ z, z ∈ extract_zip_list (Text s) →
               validate_zip_code (self w) z = false) as Hall.
  { intros z Hin. rewrite extract_zip_list_text, Hnil in Hin.
    apply list_elem_of_filter in Hin as [Hdig Hin].
    destruct (validate_zip_code (self w) z) eqn:Hv; [|done].
    pose proof (split_seps_tokens s) as Htok.
    pose proof (tokens_sep_free _ _ Htok) as Hfree.
    rewrite Forall_forall in Hfree. specialize (Hfree _ Hin).
    pose proof (valid_token_zip5 _ _ Hfree Hdig Hv) as Hz.
    destruct (tokens_occurs _ _ _ Htok Hin) as (l & r & Hs & Hl & Hr).
    pose proof (findall_from_scan s None) as Hscan.
    fold (findall_zip s) in Hscan. rewrite Hnil in Hscan.
    destruct (scan_nil _ _ Hscan l z r Hs).
    exists r. split; [done|]. split; [by left|].
    destruct (zip5_head_last _ Hz) as [Hh Ht].
    unfold word_boundary. rewrite Hh, Ht.
    rewrite (sep_boundary _ Hr).
    assert (is_word_opt (from_option Some None (last l)) = false) as ->;
      [|done].
    destruct (last l); [by apply sep_not_word|done]. }
  split; [|done]. rewrite process_zip_codes_run.
  rewrite grouping_all_rejected; [done|].
  intros z Hin. apply resolve_none. left. by apply Hall.
Qed.

Lemma process_zip_codes_fallback_finds_nothing_witness :
  process_zip_codes (Text "1234, 123456") (mkWorld anchorage [] [])
  = (Ok [], logged (mkWorld anchorage [] [])
              (process_log anchorage (Text "1234, 123456"))).
Proof.
  apply (process_zip_codes_fallback_finds_nothing "1234, 123456"
           (mkWorld anchorage [] [])).
  reflexivity.
Defined.

End Candidates.

(** * Further properties of the loader *)

Section Tables.

Lemma last_value_NoDup k v (l : list (string * string)) :
  NoDup l.*1 → (k, v) ∈ l → last_value k l = Some v.
Proof.
  induction l as [|e l IH] using rev_ind; [by intros _ ?%elem_of_nil|].
  rewrite fmap_app, NoDup_app, last_value_snoc, elem_of_app.
  intros (Hl & Hdis & _) [Hin|Hin%list_elem_of_singleton].
  - rewrite decide_False; [by apply IH|].
    intros He. apply (Hdis k).
    + apply list_elem_of_fmap. by exists (k, v).
    + rewrite <- He. simpl. apply list_elem_of_here.
  - subst e. by rewrite decide_True.
Qed.

Lemma range_entries_keys (items : list (string * (Z * Z))) :
  (item ← items;
   (λ zip_code : Z, (PyStr.str zip_code, item.1))
     <$> py_range item.2.1 (item.2.2 + 1)).*1
  = PyStr.str <$> (item ← items; py_range item.2.1 (item.2.2 + 1)).
Proof.
  induction items as [|item items IH]; [done|].
  cbn [mbind list_bind]. rewrite !fmap_app, IH. f_equal.
  rewrite <- list_fmap_compose. done.
Qed.

Lemma initial_entries_NoDup : NoDup initial_entries.*1.
Proof.
  rewrite initial_entries_eq, range_entries_keys.
  change PyStr.str with (pretty : Z → string). apply NoDup_fmap_2; [apply _|].
  unfold state_ranges, py_range. cbn [mbind list_bind fst snd].
  rewrite app_nil_r.
  repeat (apply NoDup_app; split; [apply NoDup_seqZ|split; [|]]);
    try apply NoDup_seqZ;
    intros n Hn; rewrite ?not_elem_of_app, !elem_of_seqZ;
    apply elem_of_seqZ in Hn; lia.
Qed.

Lemma initial_entries_elem k state :
  (k, state) ∈ initial_entries ↔
  ∃ n a b, k = PyStr.str n ∧ (state, (a, b)) ∈ state_ranges ∧ a ≤ n ≤ b.
Proof.
  rewrite initial_entries_eq, list_elem_of_bind. split.
  - intros ([st [a b]] & Hin & Hitem). cbn [fst snd] in Hin.
    apply list_elem_of_fmap in Hin as (n & [= -> ->] & Hn).
    apply elem_of_seqZ in Hn. exists n, a, b. split; [done|].
    split; [done|lia].
  - intros (n & a & b & -> & Hitem & Hn). exists (state, (a, b)).
    split; [|done]. cbn [fst snd]. apply list_elem_of_fmap.
    exists n. split; [done|]. apply elem_of_seqZ. lia.
Qed.

Lemma initial_table_lookup k state :
  initial_table !! k = Some state ↔
  ∃ n a b, k = PyStr.str n ∧ (state, (a, b)) ∈ state_ranges ∧ a ≤ n ≤ b.
Proof.
  rewrite <- initial_entries_elem. split; [apply initial_table_elem|].
  intros Hin. unfold initial_table. rewrite fill_lookup.
  by rewrite (last_value_NoDup _ _ _ initial_entries_NoDup Hin).
Qed.

(** X6.  After [_create_initial_mapping] the decimal text of every number
    of a range of [state_ranges] maps to the state of that range, and every
    other key has the value it had before. *)
Theorem create_initial_mapping_ranges (w : World) :
  ∃ w',
    _create_initial_mapping w = (Ok tt, w')
    ∧ (∀ n state a b,
         (state, (a, b)) ∈ state_ranges → a ≤ n ≤ b →
         db_of w' !! PyStr.str n = Some state)
    ∧ (∀ k,
         (∀ n state a b,
            (state, (a, b)) ∈ state_ranges → a ≤ n ≤ b → k ≠ PyStr.str n) →
         db_of w' !! k = db_of w !! k).
Proof.
  rewrite create_initial_mapping_run. eexists. split; [reflexivity|].
  cbn [db_of logged with_db self zip_to_state_map]. fold (db_of w).
  split.
  - intros n state a b Hitem Hn. rewrite fill_lookup.
    rewrite (last_value_NoDup (PyStr.str n) state _ initial_entries_NoDup);
      [done|].
    apply initial_entries_elem. by exists n, a, b.
  - intros k Hk. rewrite fill_lookup.
    destruct (last_value k initial_entries) as [st|] eqn:Hl; [|done].
    apply last_value_elem, initial_entries_elem in Hl
      as (n & a & b & -> & Hitem & Hn).
    by destruct (Hk n st a b).
Qed.

Lemma create_initial_mapping_ranges_witness :
  ∃ w',
    _create_initial_mapping
      (mkWorld (mkMapper {["10001" := "NY"; "99501" := "XX"]} None) [] [])
    = (Ok tt, w')
    ∧ db_of w' !! "99501" = Some "AK"
    ∧ db_of w' !! "10001" = Some "NY".
Proof.
  destruct (create_initial_mapping_ranges
              (mkWorld (mkMapper {["10001" := "NY"; "99501" := "XX"]} None)
                 [] []))
    as (w' & Hrun & Hin & Hout).
  exists w'. split; [exact Hrun|]. split.
  - apply (Hin 99501 "AK" 99500 99999); [|lia].
    apply list_elem_of_further, list_elem_of_here.
  - rewrite (Hout "10001"); [reflexivity|].
    intros n state a b Hitem Hn Heq.
    change "10001" with (pretty 10001) in Heq. unfold PyStr.str in Heq.
    apply (inj pretty) in Heq. subst n.
    unfold state_ranges in Hitem.
    repeat (apply elem_of_cons in Hitem as [[= -> -> ->]|Hitem]; [lia|]).
    by apply elem_of_nil in Hitem.
Defined.

(** X7.  [_load_from_csv] stores the entries of the rows in order, so that
    the last row that names a ZIP decides its state and every other key
    keeps its value; when the reading ends in an exception the rows read
    before it stay stored, an ERROR record is the last of the log, and the
    exception is raised again. *)
Theorem load_from_csv_last_row_wins
    (fs : FileSystem) (p : string) (w : World) :
  ∃ w',
    _load_from_csv fs p w
    = (match csv_error (fs_read fs p) with
       | None => Ok tt
       | Some e => Raised e
       end, w')
    ∧ (∀ k,
         db_of w' !! k
         = match last_value k (omap row_entry (csv_rows (fs_read fs p))) with
           | Some state => Some state
           | None => db_of w !! k
           end)
    ∧ (∀ e, csv_error (fs_read fs p) = Some e →
            last (log w')
            = Some (ERROR, "Error loading CSV file " +:+ p +:+ ": " +:+ e)).
Proof.
  unfold _load_from_csv, try_except, bind at 1. rewrite load_rows_run.
  destruct (csv_error (fs_read fs p)) as [e|].
  - unfold bind at 1, raise at 1. unfold bind, logger, raise.
    eexists. split; [reflexivity|]. split.
    + intros k. cbn [db_of with_db self zip_to_state_map].
      fold (db_of w). apply fill_lookup.
    + intros e' [= <-]. cbn [log with_db]. by rewrite last_snoc.
  - unfold bind at 1, ret at 1. unfold bind, get_self, logger.
    eexists. split; [reflexivity|]. split; [|done].
    intros k. cbn [db_of with_db self zip_to_state_map].
    fold (db_of w). apply fill_lookup.
Qed.

Lemma py_or_first_nonempty (a b c : option string) :
  match py_or (py_or a b) c with
  | Some (String x s) => Some (String x s)
  | _ => None
  end = first_nonempty [a; b; c].
Proof. destruct a as [[|? ?]|], b as [[|? ?]|], c as [[|? ?]|]; done. Qed.

(** X8.  A row stores one entry: its ZIP is the first non-empty cell among
    the columns [zip_code], [zipcode], [ZIP], its state the first non-empty
    cell among [state], [STATE], [state_abbr]; a row where either is
    missing stores nothing. *)
Theorem load_row_column_aliases (row : csv_row) (w : World) :
  load_row row w
  = (Ok tt,
     match first_nonempty [row !! "zip_code"; row !! "zipcode"; row !! "ZIP"],
           first_nonempty [row !! "state"; row !! "STATE";
                           row !! "state_abbr"] with
     | Some zip_code, Some state =>
         with_db w (<[zip_code := state]> (db_of w))
     | _, _ => w
     end).
Proof.
  rewrite <- !py_or_first_nonempty. unfold load_row.
  destruct (py_or (py_or (row !! "zip_code") (row !! "zipcode"))
              (row !! "ZIP")) as [[|? ?]|];
    destruct (py_or (py_or (row !! "state") (row !! "STATE"))
                (row !! "state_abbr")) as [[|? ?]|]; done.
Qed.

(** The world the loader leaves, in full but for the records of its log. *)
Lemma load_zip_database_world fs w :
  db_of w = ∅ →
  ∃ records,
    _load_zip_database fs w
    = (Ok tt,
       mkWorld
         (mkMapper (loaded_table fs (zip_database_path (self w)))
                   (zip_database_path (self w)))
         (log w ++ records)
         (match selected_source fs (zip_database_path (self w)),
                fs_makedirs_error fs with
          | None, None => made_dirs w ++ [default_db_dir fs]
          | _, _ => made_dirs w
          end)).
Proof.
  intros Hempty.
  unfold loaded_table, initial_table. rewrite selected_source_self.
  unfold _load_zip_database, try_except, bind at 1, get_self at 1.
  set (custom := match zip_database_path (self w) with
                 | Some (String _ _ as p) =>
                     if fs_exists fs p then Some p else None
                 | _ => None
                 end).
  assert (∀ p,
    ∃ records,
      match _load_from_csv fs p w with
      | (Ok a, w') => (Ok a, w')
      | (Raised e, w') =>
          (logger ERROR ("Error loading ZIP code database: " +:+ e) >>
           _create_initial_mapping) w'
      end
      = (Ok tt,
         mkWorld
           (mkMapper
              (match csv_error (fs_read fs p) with
               | None => rows_table fs p
               | Some _ => fill initial_entries (rows_table fs p)
               end)
              (zip_database_path (self w)))
           (log w ++ records) (made_dirs w)))
    as Hfile.
  { intros p. destruct (load_from_csv_run fs p w) as (records & ->).
    rewrite Hempty. fold (rows_table fs p).
    destruct (csv_error (fs_read fs p)) as [e|].
    - unfold bind, logger. rewrite create_initial_mapping_run.
      eexists. unfold logged, with_db. cbn [self log made_dirs db_of
        zip_to_state_map zip_database_path].
      rewrite <- !app_assoc. reflexivity.
    - eexists. reflexivity. }
  destruct custom as [p|]; [apply Hfile|].
  destruct (fs_exists fs (default_db_path fs)); [apply Hfile|].
  unfold bind at 1. rewrite create_initial_mapping_run.
  unfold bind at 1, makedirs.
  destruct (fs_makedirs_error fs) as [e|].
  - unfold raise, bind, logger. rewrite create_initial_mapping_run.
    eexists. unfold logged, with_db. cbn [self log made_dirs db_of
      zip_to_state_map zip_database_path].
    fold (db_of w). rewrite Hempty, fill_twice, <- !app_assoc. reflexivity.
  - unfold _download_zip_database, try_except, bind, logger.
    eexists. unfold logged, with_db. cbn [self log made_dirs db_of
      zip_to_state_map zip_database_path].
    fold (db_of w). rewrite Hempty, <- !app_assoc. reflexivity.
Qed.

(** X9.  The constructor keeps the path it was given, and asks for the
    data directory of the package only when it read no file; the world has
    that directory added only when, moreover, creating it raised
    nothing. *)
Theorem init_creates_data_dir_without_files
    (fs : FileSystem) (path : option string) (w : World) :
  ∃ w',
    __init__ fs path w = (Ok tt, w')
    ∧ zip_database_path (self w') = path
    ∧ made_dirs w'
      = match selected_source fs path, fs_makedirs_error fs with
        | None, None => made_dirs w ++ [default_db_dir fs]
        | _, _ => made_dirs w
        end.
Proof.
  unfold __init__, bind, set_self. cbv beta iota.
  destruct (load_zip_database_world fs
              (mkWorld (mkMapper ∅ path) (log w) (made_dirs w)) eq_refl)
    as (records & Hrun).
  eexists. split; [exact Hrun|]. done.
Qed.

End Tables.

(** * Further properties of the URL table *)

Section UrlsOfGroups.

Lemma unknown_state_known states :
  (∀ state, state ∈ states → is_Some (state_names !! state)) →
  (state ← states; unknown_state state) = [].
Proof.
  induction states as [|state states IH]; [done|]. intros Hall.
  cbn [mbind list_bind]. rewrite IH.
  - unfold unknown_state.
    destruct (Hall state) as [name ->]; [apply list_elem_of_here|done].
  - intros s Hs. apply Hall. by apply list_elem_of_further.
Qed.

Lemma grouping_key_is_value (me : ZipCodeMapper) inp state :
  state ∈ (grouping me inp).*1 →
  ∃ k, zip_to_state_map me !! k = Some state.
Proof.
  intros ([s zs] & -> & Hin)%list_elem_of_fmap.
  apply grouping_elem in Hin as [-> Hne]. cbn [fst].
  destruct (filed_under me s (extract_zip_list inp)) as [|z l] eqn:Hf;
    [done|].
  assert (z ∈ filed_under me s (extract_zip_list inp)) as Hz
    by (rewrite Hf; apply list_elem_of_here).
  apply filed_under_elem in Hz as [_ (_ & Hs & _)%resolve_some].
  unfold get_state_for_zip in Hs. eauto.
Qed.

(** X10.  When every state of the database is a key of [state_names], the
    URL table made from the keys of a grouping has an entry for each of
    them, and making it logs no warning. *)
Theorem grouped_states_have_urls
    (inp : zip_input) (base_url : string) (w : World) :
  (∀ k state, db_of w !! k = Some state → is_Some (state_names !! state)) →
  ∃ res w1 urls,
    process_zip_codes inp w = (Ok res, w1)
    ∧ states_to_urls (list_to_set res.*1) base_url w1 = (Ok urls, w1)
    ∧ ∀ state, state ∈ res.*1 ↔ is_Some (urls !! state).
Proof.
  intros Hknown.
  exists (grouping (self w) inp), (logged w (process_log (self w) inp)),
    (urls_of base_url (elements (list_to_set (grouping (self w) inp).*1
                                   : gset string)) ∅).
  split; [apply process_zip_codes_run|].
  assert (∀ state, state ∈ (grouping (self w) inp).*1 →
                   is_Some (state_names !! state)) as Hkeys.
  { intros state (k & Hk)%grouping_key_is_value. by apply (Hknown k). }
  split.
  - unfold states_to_urls. rewrite urls_loop_run.
    rewrite unknown_state_known; [by rewrite logged_nil|].
    intros state Hin%elem_of_elements%elem_of_list_to_set. by apply Hkeys.
  - intros state. rewrite urls_of_lookup, lookup_empty.
    destruct (decide (state ∈ elements (list_to_set
                (grouping (self w) inp).*1 : gset string))) as [Hin|Hin].
    + apply elem_of_elements, elem_of_list_to_set in Hin.
      split; [|done]. intros _. unfold url_entry.
      destruct (Hkeys _ Hin) as [name ->]. simpl. eauto.
    + rewrite elem_of_elements, elem_of_list_to_set in Hin.
      split; [done|]. by intros [? ?].
Qed.

Lemma grouped_states_have_urls_witness :
  ∃ res w1 urls,
    process_zip_codes (Text "99501") (mkWorld anchorage [] [])
    = (Ok res, w1)
    ∧ states_to_urls (list_to_set res.*1) default_base_url w1
      = (Ok urls, w1)
    ∧ ∀ state, state ∈ res.*1 ↔ is_Some (urls !! state).
Proof.
  apply (grouped_states_have_urls (Text "99501") default_base_url
           (mkWorld anchorage [] [])).
  intros k state Hk. unfold db_of, anchorage in Hk.
  cbn [self zip_to_state_map] in Hk.
  apply lookup_singleton_Some in Hk as [_ <-]. by exists "alaska".
Defined.

Lemma state_names_items_distinct :
  forallb (λ e1,
    forallb (λ e2 : string * string,
      implb (String.eqb e1.2 e2.2) (String.eqb e1.1 e2.1))
      state_names_items) state_names_items = true.
Proof. vm_compute. reflexivity. Qed.

Lemma state_names_inj s1 s2 name :
  state_names !! s1 = Some name → state_names !! s2 = Some name → s1 = s2.
Proof.
  intros H1%state_names_elem%list_elem_of_In
         H2%state_names_elem%list_elem_of_In.
  pose proof state_names_items_distinct as Hall.
  rewrite forallb_forall in Hall. specialize (Hall _ H1).
  rewrite forallb_forall in Hall. specialize (Hall _ H2).
  cbn [fst snd] in Hall. rewrite String.eqb_refl in Hall.
  by apply String.eqb_eq in Hall.
Qed.

Lemma state_url_inj base_url n1 n2 :
  state_url base_url n1 = state_url base_url n2 → n1 = n2.
Proof.
  unfold state_url. intros Heq.
  apply (inj (String.append base_url)) in Heq.
  apply (inj (String.append "/states/")) in Heq.
  assert (String.length n1 = String.length n2) as Hlen.
  { apply (f_equal String.length) in Heq.
    rewrite !length_append in Heq. lia. }
  by apply append_inv_length in Heq as [-> _].
Qed.

(** X11.  No two states of a URL table share a URL. *)
Theorem states_to_urls_distinct
    (states : gset string) (base_url : string) (w : World) :
  ∃ urls w',
    states_to_urls states base_url w = (Ok urls, w')
    ∧ ∀ s1 s2 url n1 n2,
        urls !! s1 = Some (url, n1) → urls !! s2 = Some (url, n2) →
        s1 = s2.
Proof.
  unfold states_to_urls. rewrite urls_loop_run. eexists _, _.
  split; [reflexivity|].
  assert (∀ s url n,
            urls_of base_url (elements states) ∅ !! s = Some (url, n) →
            state_names !! s = Some n ∧ url = state_url base_url n) as Hent.
  { intros s url n. rewrite urls_of_lookup, lookup_empty.
    destruct (decide (s ∈ elements states)); [|done].
    unfold url_entry. destruct (state_names !! s) as [name|]; [|done].
    simpl. by intros [= <- <-]. }
  intros s1 s2 url n1 n2 [H1 ->]%Hent [H2 Hurl]%Hent.
  apply state_url_inj in Hurl. subst n2.
  by apply (state_names_inj s1 s2 n1).
Qed.

End UrlsOfGroups.

(** * Properties of the crawler *)

Section Extraction.
Import PyStr Re.

Lemma search_zip_from_head prev (s : string) :
  search_zip_from prev s = list.head (findall_from prev 0 s).
Proof.
  revert prev. induction s as [|c s IH]; intros prev.
  - cbn [search_zip_from findall_from]. unfold match_zip_word.
    by destruct (word_boundary prev (head "")).
  - cbn [search_zip_from findall_from].
    destruct (match_zip_word prev (String c s)); [done|]. apply IH.
Qed.

Lemma search_zip_from_spec prev (s z : string) :
  search_zip_from prev s = Some z →
  ∃ l r, s = l +:+ z +:+ r
    ∧ whole_word_at (from_option Some prev (last l)) (z +:+ r) z
    ∧ (∀ m, whole_word_at (from_option Some prev (last l)) (z +:+ r) m →
            (String.length m ≤ String.length z)%nat)
    ∧ ∀ l' m r', s = l' +:+ m +:+ r' →
        (String.length l' < String.length l)%nat →
        ¬ whole_word_at (from_option Some prev (last l')) (m +:+ r') m.
Proof.
  revert prev. induction s as [|c s IH]; intros prev;
    cbn [search_zip_from];
    destruct (match_zip_word prev _) as [m0|] eqn:Hm.
  - intros [= ->]. pose proof (match_zip_word_sound _ _ _ Hm) as Hw.
    pose proof Hw as (r & Hs & _). exists "", r. rewrite <- Hs.
    split; [done|]. split; [done|].
    split; [by apply match_zip_word_longest|]. simpl. lia.
  - done.
  - intros [= ->]. pose proof (match_zip_word_sound _ _ _ Hm) as Hw.
    pose proof Hw as (r & Hs & _). exists "", r. rewrite <- Hs.
    split; [done|]. split; [done|].
    split; [by apply match_zip_word_longest|]. simpl. lia.
  - intros (l & r & -> & Hw & Hlong & Hleft)%IH.
    exists (String c l), r. rewrite prev_after_cons.
    split; [done|]. split; [done|]. split; [done|].
    intros [|x l'] m r' Hs Hlen.
    + simpl in Hs. rewrite <- Hs. by apply match_zip_word_none.
    + simpl in Hs. injection Hs as <- Hs. rewrite prev_after_cons.
      apply Hleft; [done|]. simpl in Hlen. lia.
Qed.

Lemma append_same_length_prefix (l l' a b : string) :
  l +:+ a = l' +:+ b → String.length l = String.length l' →
  l = l' ∧ a = b.
Proof. apply append_inv_length. Qed.

Lemma extract_zip_from_address_search (address : string) :
  extract_zip_from_address address = search_zip_from None address.
Proof.
  unfold extract_zip_from_address. by destruct (search_zip_from None address).
Qed.

(** X12.  [extract_zip_from_address] gives the first candidate the mapper
    takes from the same text.  It gives nothing exactly when no whole-word
    ZIP code stands in the address; what it gives stands in the address, no
    whole-word ZIP code starts before it, and none that starts with it is
    longer. *)
Theorem extract_zip_from_address_leftmost (address : string) :
  extract_zip_from_address address = list.head (findall_zip address)
  ∧ (extract_zip_from_address address = None ↔
     ∀ l m r, ¬ zip_stands_at address l m r)
  ∧ ∀ z, extract_zip_from_address address = Some z →
      ∃ l r, zip_stands_at address l z r
        ∧ ∀ l' m r', zip_stands_at address l' m r' →
            (String.length l ≤ String.length l')%nat
            ∧ (String.length l' = String.length l →
               (String.length m ≤ String.length z)%nat).
Proof.
  rewrite extract_zip_from_address_search.
  split; [apply search_zip_from_head|]. split.
  - rewrite search_zip_from_head. fold (findall_zip address). split.
    + intros Hnone l m r [Hs Hw].
      destruct (findall_zip address) as [|m0 ms] eqn:Hf; [|done].
      pose proof (findall_from_scan address None) as Hscan.
      fold (findall_zip address) in Hscan. rewrite Hf in Hscan.
      destruct (scan_nil _ _ Hscan l m r Hs). by destruct (last l).
    + intros Hno. destruct (findall_zip address) as [|m ms] eqn:Hf; [done|].
      pose proof (findall_from_scan address None) as Hscan.
      fold (findall_zip address) in Hscan. rewrite Hf in Hscan.
      destruct (scan_occurs _ _ _ m Hscan) as (l & r & Hs & Hw);
        [apply list_elem_of_here|].
      destruct (Hno l m r). split; [done|]. by destruct (last l).
  - intros z (l & r & Hs & Hw & Hlong & Hleft)%search_zip_from_spec.
    assert (∀ l0 : string, from_option Some None (last l0) = last l0)
      as Hprev by (intros l0; by destruct (last l0)).
    rewrite Hprev in Hw. exists l, r. split; [done|].
    intros l' m r' [Hs' Hw'].
    destruct (decide (String.length l' < String.length l)%nat) as [Hlt|Hge].
    { destruct (Hleft l' m r' Hs' Hlt). by rewrite Hprev. }
    split; [lia|]. intros Heq.
    rewrite Hs in Hs'. apply append_inv_length in Hs' as [-> Hrest]; [|done].
    apply Hlong. rewrite Hprev, Hrest. done.
Qed.

Lemma zip_format_word_ends (z : string) :
  zip_format z →
  is_word_opt (head z) = true ∧ is_word_opt (last z) = true.
Proof.
  intros [Hz|(a & b & -> & Ha & Hb)]; [by apply zip5_head_last|].
  destruct (zip5_head_last _ Ha) as [Hh _]. split.
  - by rewrite head_append by by apply zip5_nonempty.
  - rewrite last_plus4 by done. destruct Hb as [Hl Hd].
    destruct b as [|c b]; [done|].
    destruct (last (String c b)) as [e|] eqn:He.
    + pose proof (last_all _ _ _ Hd He) as Hc. simpl.
      unfold is_word, is_numeric, is_digit. rewrite Hc.
      by rewrite !orb_true_r.
    + by rewrite last_cons in He.
Qed.

Lemma match_zip_word_exact prev (z : string) :
  zip_format z → is_word_opt prev = false →
  match_zip_word prev z = Some z.
Proof.
  intros Hz Hprev. destruct (zip_format_word_ends _ Hz) as [Hh Ht].
  assert (whole_word_at prev z z) as Hw.
  { exists "". rewrite append_nil_r. split; [done|]. split; [done|].
    unfold word_boundary. by rewrite Hprev, Hh, Ht. }
  destruct (match_zip_word_complete _ _ _ Hw) as (m & Hm & Hle).
  rewrite Hm. f_equal.
  apply match_zip_word_sound in Hm as (r & Hs & _).
  assert (String.length z = String.length m + String.length r)%nat as Hlen
    by (rewrite Hs at 1; apply length_append).
  assert (String.length r = 0)%nat as Hr by lia.
  destruct r; [|done]. by rewrite append_nil_r in Hs.
Qed.

Lemma match_zip_word_no_digit prev c (s : string) :
  is_decimal c = false → match_zip_word prev (String c s) = None.
Proof.
  intros Hc. unfold match_zip_word.
  destruct (word_boundary prev (head (String c s))); [|done].
  cbn [digits]. by rewrite Hc.
Qed.

Lemma search_zip_from_skip prev (l s : string) :
  all (λ c, negb (is_decimal c)) l = true →
  s ≠ "" →
  search_zip_from prev (l +:+ s)
  = search_zip_from (from_option Some prev (last l)) s.
Proof.
  intros Hl Hs. revert prev. induction l as [|c l IH]; intros prev; [done|].
  simpl in Hl. apply andb_true_iff in Hl as [Hc Hl].
  apply negb_true_iff in Hc.
  change (String c l +:+ s) with (String c (l +:+ s)).
  cbn [search_zip_from]. rewrite (match_zip_word_no_digit _ _ _ Hc).
  rewrite (IH Hl), last_cons. by destruct (last l).
Qed.

(** X13.  A ZIP code that ends an address is read back whole when the text
    before it has no digit and does not end in a word character. *)
Theorem extract_zip_from_address_trailing_zip (l z : string) :
  zip_format z →
  all (λ c, negb (is_decimal c)) l = true →
  is_word_opt (last l) = false →
  extract_zip_from_address (l +:+ z) = Some z.
Proof.
  intros Hz Hl Hlast. rewrite extract_zip_from_address_search.
  rewrite search_zip_from_skip by (done || by apply zip_format_nonempty).
  assert (match_zip_word (from_option Some None (last l)) z = Some z) as Hm.
  { apply match_zip_word_exact; [done|]. by destruct (last l). }
  destruct z; cbn [search_zip_from]; by rewrite Hm.
Qed.

Lemma extract_zip_from_address_trailing_zip_witness :
  extract_zip_from_address ("Main St, Anchorage, AK " +:+ "99501-1234")
  = Some "99501-1234".
Proof.
  apply (extract_zip_from_address_trailing_zip
           "Main St, Anchorage, AK " "99501-1234").
  - right. exists "99501", "1234". repeat split; reflexivity.
  - reflexivity.
  - reflexivity.
Defined.

End Extraction.

Section Crawling.
Import PyStr Re.

Lemma extract_zip_from_address_zip_format (address z : string) :
  extract_zip_from_address address = Some z → zip_format z.
Proof.
  rewrite extract_zip_from_address_search.
  by intros (l & r & _ & (_ & _ & Hz & _) & _)%search_zip_from_spec.
Qed.

Lemma filter_loop_spec (F : gset string) (listings : list record) :
  filter_loop F listings
  = tagged <$> filter (λ l, passes F l = true) listings.
Proof.
  induction listings as [|listing rest IH]; [done|].
  cbn [filter_loop].
  assert (passes F listing
          = bool_decide (F = ∅)
            || match extract_zip_from_address
                       (default "" (listing !! "address")) with
               | Some z => bool_decide (z ∈ F)
               | None => false
               end) as Hpass by done.
  assert (tagged listing
          = match extract_zip_from_address
                    (default "" (listing !! "address")) with
            | Some z => <["zip_code" := z]> listing
            | None => listing
            end) as Htag by done.
  destruct (extract_zip_from_address (default "" (listing !! "address")))
    as [z|] eqn:Hz.
  - pose proof (extract_zip_from_address_zip_format _ _ Hz) as Hf.
    apply zip_format_nonempty in Hf. destruct z as [|c z]; [done|].
    rewrite <- Hpass. destruct (passes F listing) eqn:Hp.
    + rewrite filter_cons_True by done. by rewrite fmap_cons, IH, Htag.
    + by rewrite filter_cons_False by congruence.
  - rewrite <- Hpass. destruct (passes F listing) eqn:Hp.
    + rewrite filter_cons_True by done. by rewrite fmap_cons, IH, Htag.
    + by rewrite filter_cons_False by congruence.
Qed.

(** X14.  The listings kept are, in the order of the page, those that pass
    the test of the filter, each with the ZIP code read from its address as
    its [zip_code].  The ZIP code read is the first whole-word ZIP code of
    the address, and the test looks at no other: a listing passes when
    there is no filter, or when that first ZIP code is one of the filter.
    Without a filter every listing is kept. *)
Theorem filter_loop_keeps_matching
    (filter_zip_codes : gset string) (listings : list record) :
  filter_loop filter_zip_codes listings
  = tagged <$> filter (λ l, passes filter_zip_codes l = true) listings
  ∧ filter_loop ∅ listings = tagged <$> listings
  ∧ (∀ l, passes filter_zip_codes l = true ↔
          filter_zip_codes = ∅
          ∨ ∃ z, list.head (Re.findall_zip (default "" (l !! "address")))
                 = Some z
                 ∧ z ∈ filter_zip_codes)
  ∧ (∀ l, tagged l !! "zip_code"
          = match list.head (Re.findall_zip (default "" (l !! "address"))) with
            | Some z => Some z
            | None => l !! "zip_code"
            end).
Proof.
  assert (∀ l : record,
            extract_zip_from_address (default "" (l !! "address"))
            = list.head (Re.findall_zip (default "" (l !! "address"))))
    as Hfirst.
  { intros l. rewrite extract_zip_from_address_search.
    apply search_zip_from_head. }
  split; [apply filter_loop_spec|]. split; [|split].
  - rewrite filter_loop_spec. f_equal.
    induction listings as [|listing rest IH]; [done|].
    rewrite filter_cons_True; [by rewrite IH|].
    unfold passes. by rewrite bool_decide_eq_true_2.
  - intros l. unfold passes. rewrite Hfirst, orb_true_iff, bool_decide_eq_true.
    destruct (list.head (Re.findall_zip (default "" (l !! "address"))))
      as [z|].
    + rewrite bool_decide_eq_true. split.
      * intros [?|?]; [by left|right; by exists z].
      * intros [?|(z' & [= <-] & ?)]; [by left|by right].
    + split; [intros [?|?]; [by left|done]|].
      intros [?|(z' & ? & ?)]; [by left|done].
  - intros l. unfold tagged. rewrite Hfirst.
    destruct (list.head (Re.findall_zip (default "" (l !! "address"))))
      as [z|]; [|done].
    apply lookup_insert_eq.
Qed.

Lemma calls_crawl_logger l msg cw : calls (crawl_logger l msg cw) = calls cw.
Proof. done. Qed.

Lemma files_crawl_logger l msg cw : files (crawl_logger l msg cw) = files cw.
Proof. done. Qed.

(** The detail loop adds one record for each listing, in order, and makes
    one request for each listing that has a URL. *)
Lemma detail_loop_spec browser (listings : list record) acc cw :
  ∃ added,
    (detail_loop browser listings acc cw).1 = acc ++ added
    ∧ Forall2 (laid_over browser) listings added
    ∧ calls (detail_loop browser listings acc cw).2
      = (calls cw + length (filter (λ l, has_url l = true) listings))%nat
    ∧ files (detail_loop browser listings acc cw).2 = files cw.
Proof.
  revert acc cw. induction listings as [|listing rest IH]; intros acc cw.
  - exists []. cbn [detail_loop fst snd]. rewrite app_nil_r.
    split; [done|]. split; [constructor|]. split; [simpl; lia|done].
  - cbn [detail_loop].
    destruct (listing !! "url") as [[|c u]|] eqn:Hu.
    + destruct (IH (acc ++ [listing])
                  (crawl_logger WARNING
                     ("No URL for dispensary: " +:+ name_of listing) cw))
        as (added & -> & Hall & -> & ->).
      exists (listing :: added). rewrite <- app_assoc.
      split; [done|]. split; [constructor; [by left|done]|].
      rewrite filter_cons_False by (unfold has_url; by rewrite Hu).
      done.
    + set (detail_url := if PyPath.startswith "http" (String c u)
                         then String c u
                         else "https://potadvisor.com" +:+ String c u).
      set (cw1 := crawl_logger INFO
                    ("Crawling details for: " +:+ name_of listing +:+ " - "
                     +:+ detail_url) cw).
      rewrite filter_cons_True by (unfold has_url; by rewrite Hu).
      destruct (arun browser (calls cw1) detail_url) as [e|err|ct e|ds]
        eqn:Hrun.
      * destruct (IH (acc ++ [listing])
                    (crawl_logger ERROR
                       ("Error crawling details for " +:+ name_of listing
                        +:+ ": " +:+ e) (called cw1)))
          as (added & -> & Hall & -> & ->).
        exists (listing :: added). rewrite <- app_assoc.
        split; [done|]. split; [constructor; [by left|done]|].
        split; [subst cw1; cbn [length calls crawl_logger called]; lia|done].
      * destruct (IH (acc ++ [listing])
                    (crawl_logger WARNING
                       ("Failed to get details for " +:+ name_of listing
                        +:+ ": " +:+ err) (called cw1)))
          as (added & -> & Hall & -> & ->).
        exists (listing :: added). rewrite <- app_assoc.
        split; [done|]. split; [constructor; [by left|done]|].
        split; [subst cw1; cbn [length calls crawl_logger called]; lia|done].
      * destruct (IH (acc ++ [listing])
                    (crawl_logger ERROR
                       ("Error crawling details for " +:+ name_of listing
                        +:+ ": " +:+ e) (called cw1)))
          as (added & -> & Hall & -> & ->).
        exists (listing :: added). rewrite <- app_assoc.
        split; [done|]. split; [constructor; [by left|done]|].
        split; [subst cw1; cbn [length calls crawl_logger called]; lia|done].
      * destruct (IH (acc ++ [match ds with
                              | d :: _ => d ∪ listing
                              | [] => listing
                              end]) (called cw1))
          as (added & -> & Hall & -> & ->).
        eexists (_ :: added). rewrite <- app_assoc.
        split; [done|].
        split; [|split; [subst cw1; cbn [length calls crawl_logger called]; lia
                        |done]].
        constructor; [|done]. destruct ds as [|d ds]; [by left|].
        right. by exists (calls cw1), detail_url, d, ds.
    + destruct (IH (acc ++ [listing])
                  (crawl_logger WARNING
                     ("No URL for dispensary: " +:+ name_of listing) cw))
        as (added & -> & Hall & -> & ->).
      exists (listing :: added). rewrite <- app_assoc.
      split; [done|]. split; [constructor; [by left|done]|].
      rewrite filter_cons_False by (unfold has_url; by rewrite Hu).
      done.
Qed.

(** What [crawl_state] returns: nothing, or one record for each listing
    kept; the files are left alone. *)
Lemma crawl_state_result browser state_abbr state_name url F cw :
  files (crawl_state browser state_abbr state_name url F cw).2 = files cw
  ∧ ((crawl_state browser state_abbr state_name url F cw).1 = []
     ∨ ∃ listings,
         start_error browser = None
         ∧ arun browser (calls cw) url = Records listings
         ∧ Forall2 (laid_over browser) (filter_loop F listings)
             (crawl_state browser state_abbr state_name url F cw).1
         ∧ calls (crawl_state browser state_abbr state_name url F cw).2
           = (calls cw + 1
              + length (filter (λ l, has_url l = true)
                          (filter_loop F listings)))%nat).
Proof.
  unfold crawl_state.
  destruct (start_error browser) as [e|]; [by split; [|left]|].
  unfold crawl_body. cbn [calls crawl_logger].
  destruct (arun browser (calls cw) url) as [e|err|ct e|listings] eqn:Hrun.
  - cbn [fst snd]. by destruct (close_error browser); split; [|left| |left].
  - cbn [fst snd]. by destruct (close_error browser); split; [|left| |left].
  - cbn [fst snd]. by destruct (close_error browser); split; [|left| |left].
  - match goal with
    | |- context [detail_loop browser ?ls ?acc ?c] =>
        destruct (detail_loop_spec browser ls acc c)
          as (added & Hres & Hall & Hcalls & Hfiles)
    end.
    cbn [fst snd] in *. rewrite app_nil_l in Hres.
    destruct (close_error browser); cbn [fst snd];
      (split; [by rewrite ?files_crawl_logger, Hfiles|]);
      right; exists listings; rewrite ?calls_crawl_logger, Hres, Hcalls;
      (split; [done|]); (split; [done|]); (split; [done|]);
      cbn [calls crawl_logger called]; lia.
Qed.



(** X16.  [crawl_state] returns no record when the browser does not start,
    or when the request for the page of the state raises, fails, or gives
    content that is not JSON; it writes no file in any case. *)
Theorem crawl_state_empty_on_failure
    (browser : Browser) (state_abbr state_name url : string)
    (filter_zip_codes : gset string) (cw : CrawlWorld) :
  (is_Some (start_error browser)
   ∨ ∀ listings, arun browser (calls cw) url ≠ Records listings) →
  (crawl_state browser state_abbr state_name url filter_zip_codes cw).1 = []
  ∧ files (crawl_state browser state_abbr state_name url filter_zip_codes
             cw).2 = files cw.
Proof.
  intros Hfail.
  destruct (crawl_state_result browser state_abbr state_name url
              filter_zip_codes cw) as [Hfiles [Hnil|(ls & Hs & Hls & _)]];
    [done|].
  destruct Hfail as [[e He]|Hno]; [congruence|]. by destruct (Hno ls).
Qed.

Lemma crawl_state_empty_on_failure_witness :
  (crawl_state one_page "AK" "alaska" "https://potadvisor.com/ak" ∅
     (mkCrawl 1 [] ∅)).1 = [].
Proof.
  apply (crawl_state_empty_on_failure one_page "AK" "alaska"
           "https://potadvisor.com/ak" ∅ (mkCrawl 1 [] ∅)).
  right. intros listings. discriminate.
Defined.

(** X17.  With a filter that is not empty, and detail pages that carry no
    [zip_code] field, every record [crawl_state] returns has a [zip_code],
    and it is one of the filter. *)
Theorem crawl_state_results_match_filter
    (browser : Browser) (state_abbr state_name url : string)
    (filter_zip_codes : gset string) (cw : CrawlWorld) :
  filter_zip_codes ≠ ∅ →
  (∀ n u d ds, arun browser n u = Records (d :: ds) →
               d !! "zip_code" = None) →
  ∀ r, r ∈ (crawl_state browser state_abbr state_name url filter_zip_codes
              cw).1 →
       ∃ z, r !! "zip_code" = Some z ∧ z ∈ filter_zip_codes.
Proof.
  intros Hne Hdetail r Hin.
  destruct (crawl_state_result browser state_abbr state_name url
              filter_zip_codes cw) as [_ [Hnil|(ls & _ & _ & Hall & _)]].
  { rewrite Hnil in Hin. by apply elem_of_nil in Hin. }
  apply list_elem_of_lookup in Hin as [i Hi].
  destruct (Forall2_lookup_r _ _ _ _ _ Hall Hi) as (l & Hl & Hover).
  rewrite filter_loop_spec in Hl.
  apply list_lookup_fmap_Some in Hl as (l0 & -> & Hl0).
  apply list_elem_of_lookup_2, list_elem_of_filter in Hl0 as [Hpass _].
  unfold passes in Hpass.
  rewrite bool_decide_eq_false_2 in Hpass by done. cbn [orb] in Hpass.
  assert (∃ z, tagged l0 !! "zip_code" = Some z ∧ z ∈ filter_zip_codes)
    as (z & Hz & HzF).
  { unfold tagged.
    destruct (extract_zip_from_address (default "" (l0 !! "address")))
      as [z|]; [|done].
    apply bool_decide_eq_true in Hpass. exists z.
    split; [apply lookup_insert_eq|done]. }
  exists z. split; [|done].
  destruct Hover as [->|(n & u & d & ds & Hrun & ->)]; [done|].
  apply lookup_union_Some_raw. right.
  split; [by apply (Hdetail n u d ds)|done].
Qed.

Lemma crawl_state_results_match_filter_witness :
  ∃ z, tagged northern_lights !! "zip_code" = Some z
       ∧ z ∈ ({["99501"]} : gset string).
Proof.
  apply (crawl_state_results_match_filter one_page "AK" "alaska"
           "https://potadvisor.com/ak" {["99501"]} (mkCrawl 0 [] ∅)).
  - apply non_empty_singleton_L.
  - intros [|n] u d ds Hrun; [|discriminate].
    injection Hrun as <- _. by vm_compute.
  - vm_compute. apply list_elem_of_here.
Defined.







End Crawling.
